(** * Model training notebook: train/test splitter and class balancer

    Shallow embedding of the decision logic of [Notebooks/ModelTraining.ipynb]:
    the train/test split cell, [xy_split], the class-count cell, the
    SMOTE balancing cell, [plot_confusion_matrix] and the input sample.

    Conventions.
    - pandas frames are lists of rows, in row order.
    - A Python float is the rational number it denotes, or inf or nan
      ([np_float]).  The arithmetic of the split and of the balancing cell
      rounds as binary64 does: a literal, an integer turned into a float,
      a product and a quotient are each rounded to the nearest binary64
      number ([float64]), and the float division by zero of numpy yields
      inf or nan instead of raising.  The quotients of the confusion
      matrix plot are kept exact.
    - The literals of the notebook ([lookback = 5], [test_size = 0.2],
      [time_split = False], [seed = 42] and the inline [0.1]) are
      arguments of the embedded cells; [Notebook] instantiates them.
    - sklearn, imblearn and pandas are not part of the notebook.  What the
      notebook leaves to them is a parameter: the seeded random generator,
      SMOTE's number of neighbours and the text the JSON encoder writes
      for a value.
    - Exceptions are values of [error]; a cell that raises returns
      [Raise e] and produces nothing else. *)

From Stdlib Require Import String List ZArith QArith Qround Qpower Lia Bool.
From Stdlib Require Import Permutation Sorted.
Import ListNotations.

Local Open Scope Z_scope.

(** ** Exceptions *)

(** The error taxonomy of the specification (section 7), and [Unclassified]
    for the exceptions it names no error for: Python's refusal to convert
    an infinite float to an integer, and the sampler's rejection of labels
    that hold fewer than two classes. *)
Inductive error : Type :=
| InvalidConfiguration
| EmptyDataset
| InsufficientNeighbors
| Unclassified.

Inductive result (A : Type) : Type :=
| Ok (a : A)
| Raise (e : error).

Arguments Ok {A} a.
Arguments Raise {A} e.

Definition bind {A B : Type} (m : result A) (k : A -> result B) : result B :=
  match m with
  | Ok a => k a
  | Raise e => Raise e
  end.

Notation "x <- m ;; k" := (bind m (fun x => k))
  (at level 61, m at next level, right associativity).
Notation "' p <- m ;; k" := (bind m (fun x => match x with p => k end))
  (at level 61, p pattern, m at next level, right associativity).

Definition succeeds {A : Type} (m : result A) : bool :=
  match m with Ok _ => true | Raise _ => false end.

(** ** numpy.random.RandomState *)

(** What the notebook's library calls draw from a generator seeded with
    [random_state=seed]: a permutation of [range(n)], and for the i-th
    synthetic sample an integer and a number of the unit interval. *)
Record RandomState : Type := mkRandomState {
  permutation : nat -> list nat;
  randint : nat -> nat;
  uniform : nat -> Q
}.

Record RandomState_wf (rs : RandomState) : Prop := mkRandomState_wf {
  permutation_wf : forall n, Permutation (permutation rs n) (seq 0 n);
  uniform_wf : forall i, (0 <= uniform rs i /\ uniform rs i <= 1)%Q
}.

(** ** Data model *)

Abbreviation label := string.

Inductive cell : Type :=
| Int (z : Z)
| Float (q : Q)
| Str (s : string).

(** One row of the feature table.  [entryID] is the row identifier the
    notebook moves to the index; [sensors] are the remaining named columns. *)
Record record : Type := mkRecord {
  entryID : Z;
  machineID : Z;
  cycle : Z;
  sequenceID : Z;
  rul : Z;
  immediate_failure : label;
  sensors : list (string * Q)
}.

Definition DataFrame := list record.

(** ** Floats *)

Definition Qltb (a b : Q) : bool := negb (Qle_bool b a).

(** A numpy float: a number, an infinity or nan.  The two zeros of binary64
    are not told apart; the cells below divide by counts only, which are
    never the negative zero. *)
Inductive np_float : Type :=
| Finite (q : Q)
| PosInf
| NegInf
| NaN.

(** [- x] *)
Definition np_opp (x : np_float) : np_float :=
  match x with
  | Finite q => Finite (- q)
  | PosInf => NegInf
  | NegInf => PosInf
  | NaN => NaN
  end.

(** [a < b]: false as soon as an operand is nan. *)
Definition np_lt (a b : np_float) : bool :=
  match a, b with
  | NaN, _ | _, NaN => false
  | _, NegInf => false
  | NegInf, _ => true
  | PosInf, _ => false
  | _, PosInf => true
  | Finite x, Finite y => Qltb x y
  end.

(** [a > b] *)
Definition np_gt (a b : np_float) : bool := np_lt b a.

(** [x > 1] *)
Definition np_gt_1 (x : np_float) : bool :=
  match x with
  | Finite q => Qltb 1 q
  | PosInf => true
  | NegInf | NaN => false
  end.

(** [x <= 1] *)
Definition np_le_1 (x : np_float) : bool :=
  match x with
  | Finite q => Qle_bool q 1
  | NegInf => true
  | PosInf | NaN => false
  end.

(** *** Rounding to binary64 *)

(** [floor(log2(q))] for a positive rational: the difference of the binary
    lengths of numerator and denominator, or one less. *)
Definition ilog2 (q : Q) : Z :=
  let k := Z.log2 (Qnum q) - Z.log2 (Zpos (Qden q)) in
  if Qle_bool (2 ^ k) q then k else k - 1.

(** The nearest integer, the even one of two equally near. *)
Definition round_half_even (x : Q) : Z :=
  let n := Qfloor x in
  match (x - inject_Z n ?= 1 # 2)%Q with
  | Lt => n
  | Gt => n + 1
  | Eq => if Z.even n then n else n + 1
  end.

(** A positive rational rounded to 53 significant bits, with the exponent
    range of binary64: multiples of 2^-1074 below 2^-1022, and inf from
    2^1024 on. *)
Definition float64_pos (q : Q) : np_float :=
  let e := Z.max (ilog2 q - 52) (-1074) in
  let v := (inject_Z (round_half_even (q / 2 ^ e)) * 2 ^ e)%Q in
  if Qle_bool (2 ^ 1024) v then PosInf else Finite v.

(** The binary64 number nearest to [q] (ties to even): what Python reads a
    literal as, what [float(n)] is for an integer [n], and how every
    arithmetic result is rounded. *)
Definition float64 (q : Q) : np_float :=
  let q := Qred q in
  match (q ?= 0)%Q with
  | Eq => Finite 0
  | Gt => float64_pos q
  | Lt => np_opp (float64_pos (- q))
  end.

(** [x * y] on floats *)
Definition np_times (x y : np_float) : np_float :=
  match x, y with
  | NaN, _ | _, NaN => NaN
  | Finite a, Finite b => float64 (a * b)
  | Finite a, PosInf | PosInf, Finite a =>
    if Qltb 0 a then PosInf else if Qltb a 0 then NegInf else NaN
  | Finite a, NegInf | NegInf, Finite a =>
    if Qltb 0 a then NegInf else if Qltb a 0 then PosInf else NaN
  | PosInf, PosInf | NegInf, NegInf => PosInf
  | PosInf, NegInf | NegInf, PosInf => NegInf
  end.

(** [x / y] on numpy floats: a division by zero yields inf or nan. *)
Definition np_over (x y : np_float) : np_float :=
  match x, y with
  | NaN, _ | _, NaN => NaN
  | Finite a, Finite b =>
    if Qeq_bool b 0 then
      if Qltb 0 a then PosInf else if Qltb a 0 then NegInf else NaN
    else float64 (a / b)
  | Finite _, _ => Finite 0
  | PosInf, Finite b => if Qltb b 0 then NegInf else PosInf
  | NegInf, Finite b => if Qltb b 0 then PosInf else NegInf
  | _, _ => NaN
  end.

(** [x / n] for a float [x] and an integer [n], the quotient kept exact
    (used by the confusion matrix plot). *)
Definition np_div (x : Q) (n : Z) : np_float :=
  if n =? 0 then
    if Qltb 0 x then PosInf else if Qltb x 0 then NegInf else NaN
  else Finite (x / inject_Z n).

(** [int(x)]: truncation towards zero; Python raises OverflowError on inf
    and ValueError on nan. *)
Definition int (x : np_float) : result Z :=
  match x with
  | Finite q => Ok (Z.quot (Qnum q) (Zpos (Qden q)))
  | _ => Raise Unclassified
  end.

(** [math.ceil(test_size * n_samples)], a float product.  A list of 2^1024
    rows does not exist; for it the product would be inf, [math.ceil]
    would raise, and [n] stands for that case. *)
Definition ceil_fraction (test_size : Q) (n : nat) : nat :=
  match np_times (float64 test_size) (float64 (inject_Z (Z.of_nat n))) with
  | Finite q => Z.to_nat (Qceiling q)
  | _ => n
  end.

(** ** sklearn.model_selection.train_test_split *)

(** [a[indices]].  numpy raises on an index out of range; the indices used
    here come from a permutation of [range(len(a))], which holds none, and
    such an index contributes nothing. *)
Definition safe_indexing {A : Type} (a : list A) (indices : list nat) : list A :=
  flat_map (fun i => match nth_error a i with
                     | Some x => [x]
                     | None => []
                     end) indices.

Section Library.

(** [RandomState_of seed] is [numpy.random.RandomState(seed)]. *)
Variable RandomState_of : Z -> RandomState.

(** Modelled from the spec: sklearn's [train_test_split], which is not part
    of the notebook.  It fails with [InvalidConfiguration] when
    the test fraction, the float it is given, is outside (0, 1) and with
    [EmptyDataset] when there is nothing to split (section 4.1, Failure);
    otherwise the test part has [ceil(test_size * n)] elements and the
    train part the others.
    [shuffle = None] is the call with [shuffle=False] (the last elements
    are the test part); [shuffle = Some seed] is the call with
    [random_state=seed]: a random subset drawn with the seeded generator. *)
Definition train_test_split {A : Type} (arrays : list A) (test_size : Q)
    (shuffle : option Z) : result (list A * list A) :=
  if negb (np_lt (Finite 0) (float64 test_size)
           && np_lt (float64 test_size) (Finite 1))
  then Raise InvalidConfiguration
  else
    let n_samples := length arrays in
    match n_samples with
    | O => Raise EmptyDataset
    | _ =>
      let n_test := ceil_fraction test_size n_samples in
      let n_train := (n_samples - n_test)%nat in
      match shuffle with
      | None => Ok (firstn n_train arrays, skipn n_train arrays)
      | Some random_state =>
        let rng := RandomState_of random_state in
        let perm := permutation rng n_samples in
        let ind_test := firstn n_test perm in
        let ind_train := firstn n_train (skipn n_test perm) in
        Ok (safe_indexing arrays ind_train, safe_indexing arrays ind_test)
      end
    end.

(** ** Train/test split (cell 5) *)

(** [data.sort_index()] with [entryID] as the index: a stable insertion
    sort.  pandas may order rows with equal index values differently; the
    row identifiers of a dataset are unique. *)
Fixpoint insert_by_index (r : record) (d : DataFrame) : DataFrame :=
  match d with
  | [] => [r]
  | r' :: d' =>
    if entryID r <=? entryID r' then r :: d
    else r' :: insert_by_index r d'
  end.

Definition sort_index (d : DataFrame) : DataFrame :=
  fold_right insert_by_index [] d.

(** [groupby(['machineID']).cycle.min()]: one entry per machine, holding the
    smallest cycle seen. *)
Fixpoint update_min (m c : Z) (groups : list (Z * Z)) : list (Z * Z) :=
  match groups with
  | [] => [(m, c)]
  | (m', c') :: rest =>
    if m' =? m then (m', Z.min c' c) :: rest
    else (m', c') :: update_min m c rest
  end.

Definition groupby_cycle_min (d : DataFrame) : list (Z * Z) :=
  fold_left (fun groups r => update_min (machineID r) (cycle r) groups) d [].

(** [min_cycles]: [.apply(lambda x: x - lookback).to_frame(name='max_cycle')] *)
Definition min_cycles (lookback : Z) (test : DataFrame) : list (Z * Z) :=
  map (fun g => (fst g, snd g - lookback)) (groupby_cycle_min test).

Fixpoint lookup (m : Z) (groups : list (Z * Z)) : option Z :=
  match groups with
  | [] => None
  | (m', c) :: rest => if m' =? m then Some c else lookup m rest
  end.

(** [train.reset_index().join(min_cycles, on='machineID')]: a left join; a
    machine without an entry gets NaN, here [None]. *)
Definition join_max_cycle (train : DataFrame) (mc : list (Z * Z))
  : list (record * option Z) :=
  map (fun r => (r, lookup (machineID r) mc)) train.

(** [t.max_cycle.isna() | (t.cycle < t.max_cycle)] *)
Definition keep_row (t : record * option Z) : bool :=
  match snd t with
  | None => true
  | Some max_cycle => cycle (fst t) <? max_cycle
  end.

Definition trim_leakage (lookback : Z) (train test : DataFrame) : DataFrame :=
  map fst (filter keep_row (join_max_cycle train (min_cycles lookback test))).

(** [pandas.unique]: distinct values in order of first appearance. *)
Fixpoint unique (l : list Z) : list Z :=
  match l with
  | [] => []
  | x :: t => x :: filter (fun y => negb (y =? x)) (unique t)
  end.

(** [Series.isin] *)
Definition isin (m : Z) (values : list Z) : bool :=
  existsb (Z.eqb m) values.

Definition time_based_split (data : DataFrame) (test_size : Q) (lookback : Z)
  : result (DataFrame * DataFrame) :=
  let data := sort_index data in
  ' (train, test) <- train_test_split data test_size None ;;
  Ok (trim_leakage lookback train test, test).

Definition asset_based_split (data : DataFrame) (test_size : Q) (seed : Z)
  : result (DataFrame * DataFrame) :=
  let unique_assets := unique (map machineID data) in
  ' (train_assets, test_assets) <-
      train_test_split unique_assets test_size (Some seed) ;;
  Ok (filter (fun r => isin (machineID r) train_assets) data,
      filter (fun r => isin (machineID r) test_assets) data).

Definition split (data : DataFrame) (time_split : bool) (test_size : Q)
    (lookback : Z) (seed : Z) : result (DataFrame * DataFrame) :=
  if time_split then time_based_split data test_size lookback
  else asset_based_split data test_size seed.

End Library.

(** ** Feature/label separation (cell 6) *)

(** The columns of a frame row once [entryID] has become the index. *)
Definition columns (r : record) : list (string * cell) :=
  [ ("machineID", Int (machineID r));
    ("cycle", Int (cycle r));
    ("sequenceID", Int (sequenceID r));
    ("rul", Int (rul r));
    ("immediate_failure", Str (immediate_failure r)) ]%string
  ++ map (fun s => (fst s, Float (snd s))) (sensors r).

Definition columns_to_drop : list string :=
  [ "cycle"; "immediate_failure"; "rul"; "sequenceID"; "machineID" ]%string.

(** [DataFrame.drop(labels, axis=1)] on one row: every column carrying one of
    the labels goes. *)
Definition drop (labels : list string) (row : list (string * cell))
  : list (string * cell) :=
  filter (fun c => negb (existsb (String.eqb (fst c)) labels)) row.

(** [data.reset_index(drop = True)] discards the [entryID] index, which
    [columns] already leaves out. *)
Definition xy_split (data : DataFrame)
  : list (list (string * cell)) * list label :=
  (map (fun r => drop columns_to_drop (columns r)) data,
   map immediate_failure data).

(** ** Class counts (cell 8) *)

(** [collections.Counter]: a dict, in order of first insertion. *)
Fixpoint incr (l : label) (counts : list (label * Z)) : list (label * Z) :=
  match counts with
  | [] => [(l, 1)]
  | (l', n) :: rest =>
    if String.eqb l' l then (l', n + 1) :: rest
    else (l', n) :: incr l rest
  end.

Definition Counter (Y : list label) : list (label * Z) :=
  fold_left (fun counts l => incr l counts) Y [].

(** [sorted(items, key=itemgetter(1), reverse=True)]: stable, so that labels
    with equal counts stay in insertion order ([most_common(1)] likewise
    answers the first label of maximal count). *)
Fixpoint insert_desc (c : label * Z) (sorted : list (label * Z))
  : list (label * Z) :=
  match sorted with
  | [] => [c]
  | c' :: rest =>
    if snd c' <? snd c then c :: sorted
    else c' :: insert_desc c rest
  end.

Definition most_common (counts : list (label * Z)) : list (label * Z) :=
  fold_left (fun sorted c => insert_desc c sorted) counts [].

(** [all_classes.most_common(1)] *)
Definition majority_class (Y : list label) : list (label * Z) :=
  firstn 1 (most_common (Counter Y)).

(** [all_classes.most_common()[1:]] *)
Definition minority_classes (Y : list label) : list (label * Z) :=
  skipn 1 (most_common (Counter Y)).

(** Python's [sum] over integers. *)
Definition sum (l : list Z) : Z := fold_right Z.add 0 l.

(** ** Feature vectors *)

Definition vec := list Q.

(** Squared Euclidean distance; it orders neighbours as the distance does. *)
Definition sq_dist (a b : vec) : Q :=
  fold_right Qplus 0%Q
    (map (fun p => ((fst p - snd p) * (fst p - snd p))%Q) (combine a b)).

(** The point at fraction [gap] of the way from [x] to [nn]. *)
Definition interpolate (x nn : vec) (gap : Q) : vec :=
  map (fun p => (fst p + gap * (snd p - fst p))%Q) (combine x nn).

Fixpoint insert_near (x c : vec) (sorted : list vec) : list vec :=
  match sorted with
  | [] => [c]
  | c' :: rest =>
    if Qltb (sq_dist x c) (sq_dist x c') then c :: sorted
    else c' :: insert_near x c rest
  end.

(** The candidates, nearest to [x] first. *)
Definition nearest_first (x : vec) (candidates : list vec) : list vec :=
  fold_left (fun sorted c => insert_near x c sorted) candidates [].

Definition remove_nth {A : Type} (i : nat) (l : list A) : list A :=
  firstn i l ++ skipn (S i) l.

(** The (at most) [k] nearest same-class neighbours of sample number [i]. *)
Definition neighbours (k : nat) (X_class : list vec) (i : nat) : list vec :=
  firstn k (nearest_first (nth i X_class []) (remove_nth i X_class)).

(** The rows of [X] labelled [l]. *)
Definition members (l : label) (X : list vec) (Y : list label) : list vec :=
  map fst (filter (fun xy => String.eqb (snd xy) l) (combine X Y)).

(** ** SMOTE *)

Record SMOTE : Type := mkSMOTE {
  ratio : option (list (label * Z));
  random_state : Z
}.

Section Balancer.

Variable RandomState_of : Z -> RandomState.

(** The number of neighbours SMOTE looks at; the notebook leaves it at the
    library's default. *)
Variable k_neighbors : nat.

(** Synthetic sample number [j]: a real sample of the class, one of its
    nearest same-class neighbours, and a random point on the segment
    between the two. *)
Definition make_sample (rng : RandomState) (X_class : list vec) (j : nat) : vec :=
  let i := (randint rng (2 * j) mod length X_class)%nat in
  let x := nth i X_class [] in
  let nns := neighbours k_neighbors X_class i in
  let nn := nth (randint rng (2 * j + 1) mod length nns)%nat nns x in
  interpolate x nn (uniform rng j).

Definition make_samples (rng : RandomState) (X_class : list vec)
    (start n : nat) : list vec :=
  map (make_sample rng X_class) (seq start n).

(** One label after the other: rows are synthesised until the label's count
    reaches its target.  [start] numbers the samples drawn so far.  A label
    that needs a row and has fewer than 2 members has no same-class
    neighbour to interpolate with. *)
Fixpoint oversample (rng : RandomState) (X : list vec) (Y : list label)
    (targets : list (label * Z)) (start : nat)
  : result (list vec * list label) :=
  match targets with
  | [] => Ok ([], [])
  | (l, target) :: rest =>
    let X_class := members l X Y in
    let n := Z.to_nat (target - Z.of_nat (length X_class)) in
    if (0 <? n)%nat && (length X_class <? 2)%nat
    then Raise InsufficientNeighbors
    else
      ' (X_rest, Y_rest) <- oversample rng X Y rest (start + n)%nat ;;
      Ok (make_samples rng X_class start n ++ X_rest, repeat l n ++ Y_rest)
  end.

(** Modelled from the spec: imblearn's [SMOTE.fit_sample], which is not part
    of the notebook (section 4.2).  Without a ratio nothing is oversampled
    and the input is returned unchanged (step 5).  With a ratio every
    targeted label gets new feature vectors by nearest-neighbour
    interpolation among the existing vectors of that label until its count
    reaches the target (step 6); the new rows follow the original ones.  A
    label that has fewer than 2 members and cannot be interpolated fails
    with [InsufficientNeighbors] (Failure).  The spec does not say what
    becomes of labels that hold fewer than two classes, where there is no
    minority class; the library rejects them, with an exception outside the
    spec's taxonomy. *)
Definition fit_sample (sm : SMOTE) (X : list vec) (Y : list label)
  : result (list vec * list label) :=
  if (length (Counter Y) <? 2)%nat then Raise Unclassified
  else
    match ratio sm with
    | None => Ok (X, Y)
    | Some targets =>
      ' (X_new, Y_new) <-
          oversample (RandomState_of (random_state sm)) X Y targets 0 ;;
      Ok (X ++ X_new, Y ++ Y_new)
    end.

(** ** Correction of data imbalance (cell 10) *)

(** [sum([c[1] for c in minority_classes])] *)
Definition minority_classes_size (Y_train : list label) : Z :=
  sum (map snd (minority_classes Y_train)).

(** [Y_train.count() * 0.1], the literal being [target_minority_fraction]:
    the product of two floats.  After [fillna('')] no label is missing and
    [count()] is the number of rows. *)
Definition desired_minority_classes_size (target_minority_fraction : Q)
    (Y_train : list label) : np_float :=
  np_times (float64 (inject_Z (Z.of_nat (length Y_train))))
           (float64 target_minority_fraction).

(** [desired_minority_classes_size / minority_classes_size] *)
Definition scale (target_minority_fraction : Q) (Y_train : list label)
  : np_float :=
  np_over (desired_minority_classes_size target_minority_fraction Y_train)
          (float64 (inject_Z (minority_classes_size Y_train))).

(** [dict((c[0], int(c[1] * scale)) for c in minority_classes)] *)
Fixpoint targets (scale : np_float) (classes : list (label * Z))
  : result (list (label * Z)) :=
  match classes with
  | [] => Ok []
  | c :: rest =>
    target <- int (np_times (float64 (inject_Z (snd c))) scale) ;;
    others <- targets scale rest ;;
    Ok ((fst c, target) :: others)
  end.

(** [ratio = None; if scale > 1: ratio = dict(...)] *)
Definition ratio_for (target_minority_fraction : Q) (Y_train : list label)
  : result (option (list (label * Z))) :=
  let scale := scale target_minority_fraction Y_train in
  if np_gt_1 scale then
    ratio <- targets scale (minority_classes Y_train) ;;
    Ok (Some ratio)
  else Ok None.

(** [sm = SMOTE(ratio=ratio, random_state=seed)] and
    [sm.fit_sample(X_train, Y_train)], on every path. *)
Definition balance (target_minority_fraction : Q) (seed : Z)
    (X_train : list vec) (Y_train : list label)
  : result (list vec * list label) :=
  ratio <- ratio_for target_minority_fraction Y_train ;;
  fit_sample (mkSMOTE ratio seed) X_train Y_train.

End Balancer.

(** ** Confusion matrix plot (cell 14) *)

(** [numpy.maximum]: nan as soon as an operand is nan. *)
Definition np_maximum (a b : np_float) : np_float :=
  match a, b with
  | NaN, _ | _, NaN => NaN
  | _, _ => if np_lt a b then b else a
  end.

(** [a.max()] over all entries of an array; numpy raises ValueError on an
    array without entries, here [None]. *)
Definition np_max (a : list np_float) : option np_float :=
  match a with
  | [] => None
  | x :: rest => Some (fold_left np_maximum rest x)
  end.

(** [x / 2.] *)
Definition np_half (x : np_float) : np_float :=
  match x with
  | Finite q => Finite (q / 2)
  | other => other
  end.

(** [cm.astype('float') / cm.sum(axis=1)[:, np.newaxis]]: every entry
    divided by the sum of its row. *)
Definition normalise (cm : list (list Z)) : list (list np_float) :=
  map (fun row => map (fun c => np_div (inject_Z c) (sum row)) row) cm.

(** [a.shape] of a two-dimensional array. *)
Definition shape {A : Type} (a : list (list A)) : nat * nat :=
  (length a, match a with [] => O | row :: _ => length row end).

(** [a[i, j]].  The loop of [plot_confusion_matrix] stays within
    [a.shape]; [d] stands for the IndexError it never meets. *)
Definition item {A : Type} (d : A) (a : list (list A)) (i j : nat) : A :=
  nth j (nth i a []) d.

(** One [plt.text] call: the position, the two numbers the text shows (the
    normalised value, printed with format '.2f', and below it the original
    count in parentheses) and the colour. *)
Record Text : Type := mkText {
  text_x : nat;
  text_y : nat;
  text_value : np_float;
  text_count : Z;
  text_color : string
}.

(** What [plot_confusion_matrix] draws: the image, the tick labels of both
    axes and the texts. *)
Record Figure : Type := mkFigure {
  image : list (list np_float);
  ticks : list (nat * string);
  texts : list Text
}.

(** [None] is the ValueError of [cm.max()] on a matrix without entries. *)
Definition plot_confusion_matrix (cm : list (list Z)) (classes : list string)
  : option Figure :=
  let orig := cm in
  let cm := normalise cm in
  let tick_marks := seq 0 (length classes) in
  match np_max (concat cm) with
  | None => None
  | Some largest =>
    let thresh := np_half largest in
    Some (mkFigure cm (combine tick_marks classes)
            (map (fun ij =>
                    let i := fst ij in
                    let j := snd ij in
                    mkText j i (item NaN cm i j) (item 0 orig i j)
                      (if np_gt (item NaN cm i j) thresh
                       then "white"%string else "black"%string))
                 (list_prod (seq 0 (fst (shape cm))) (seq 0 (snd (shape cm))))))
  end.

(** [['None'] + [c[0] for c in minority_classes]] *)
Definition class_names (Y_train : list label) : list string :=
  "None"%string :: map fst (minority_classes Y_train).

(** ** Input sample (cell 23) *)

(** [DataFrame.sample(n)], without replacement: the rows at the first [n]
    positions of a random permutation of the row positions.  pandas raises
    ValueError when the frame has fewer than [n] rows, here [None].  The
    notebook passes no seed; [rng] is numpy's global generator. *)
Definition sample {A : Type} (rng : RandomState) (n : nat) (frame : list A)
  : option (list A) :=
  if (length frame <? n)%nat then None
  else Some (safe_indexing frame (firstn n (permutation rng (length frame)))).

Section InputSample.

(** The JSON text pandas' encoder writes for a value (a float with at most
    ten decimals); the encoder is not part of the notebook. *)
Variable encode : cell -> string.

(** One object of [to_json(orient='records')]: the columns of a row by
    name, each with its encoded value. *)
Definition to_record (row : list (string * cell)) : list (string * string) :=
  map (fun c => (fst c, encode (snd c))) row.

(** [frame.to_json(orient='records')]: a JSON array of flat objects, one
    per row. *)
Definition to_json (frame : list (list (string * cell)))
  : list (list (string * string)) :=
  map to_record frame.

(** [X_test.sample(n = 5).to_json(orient='records')], the literal being
    [n]. *)
Definition input_sample (rng : RandomState) (n : nat)
    (X_test : list (list (string * cell)))
  : option (list (list (string * string))) :=
  option_map to_json (sample rng n X_test).

End InputSample.

(** ** The notebook's constants *)

Module Notebook.

Definition lookback : Z := 5.
Definition test_size : Q := 2 # 10.
Definition time_split : bool := false.
Definition seed : Z := 42.
Definition target_minority_fraction : Q := 1 # 10.

Definition train_test (rng : Z -> RandomState) (data : DataFrame)
  : result (DataFrame * DataFrame) :=
  split rng data time_split test_size lookback seed.

Definition resample (rng : Z -> RandomState) (k_neighbors : nat)
    (X_train : list vec) (Y_train : list label)
  : result (list vec * list label) :=
  balance rng k_neighbors target_minority_fraction seed X_train Y_train.

End Notebook.

(** ** Vocabulary of the properties *)

(** The entity identifiers appearing in a frame. *)
Definition entities (d : DataFrame) : list Z := map machineID d.

Definition has_rows_in (d : DataFrame) (e : Z) : Prop :=
  exists r, In r d /\ machineID r = e.

(** [m] is the minimum cycle value of entity [e]'s rows in [test]. *)
Definition min_test_cycle (test : DataFrame) (e : Z) (m : Z) : Prop :=
  (exists r, In r test /\ machineID r = e /\ cycle r = m) /\
  (forall r, In r test -> machineID r = e -> m <= cycle r).

(** The fraction, as the float the split is given, lies strictly between 0
    and 1. *)
Definition valid_fraction (f : Q) : Prop :=
  exists q, float64 f = Finite q /\ (0 < q /\ q < 1)%Q.

(** The value of a named column in a frame row. *)
Fixpoint column (name : string) (row : list (string * cell)) : option cell :=
  match row with
  | [] => None
  | (n, v) :: rest => if String.eqb n name then Some v else column name rest
  end.



(** [counts[l]]: a Counter answers 0 for a label it does not hold. *)
Fixpoint count_of (l : label) (counts : list (label * Z)) : Z :=
  match counts with
  | [] => 0
  | (l', n) :: rest => if String.eqb l' l then n else count_of l rest
  end.

(** The number of occurrences of [l] in [Y]. *)
Definition occurrences (Y : list label) (l : label) : Z :=
  Z.of_nat (count_occ string_dec Y l).

(** Larger counts first. *)
Definition desc (a b : label * Z) : Prop := snd b <= snd a.

(** [Counter(Y) == counts], as dictionaries. *)
Definition label_counts (Y : list label) (counts : list (label * Z)) : Prop :=
  Permutation (Counter Y) counts.

(** Rows in increasing order of their row identifier. *)
Definition by_entryID (a b : record) : Prop := entryID a <= entryID b.

(** A matrix of counts with [n] rows and [k] columns. *)
Definition counts_matrix (n k : nat) (cm : list (list Z)) : Prop :=
  length cm = n /\
  Forall (fun row => length row = k /\ Forall (fun c => 0 <= c) row) cm.


(** ** Sample data *)

Module Sample.

Local Open Scope string_scope.

(** A generator: ranges rotated by the seed, a linear integer sequence, and
    the numbers 1/2, 1/3, ... *)
Definition rng (seed : Z) : RandomState :=
  mkRandomState
    (fun n => let k := (Z.abs_nat seed mod n)%nat in
              (skipn k (seq 0 n) ++ firstn k (seq 0 n))%list)
    (fun i => ((7 * i + 3) / 2)%nat)
    (fun i => 1 # Pos.of_succ_nat (S i)).

(** Another generator, which agrees with [rng] at seed 42 only. *)
Definition rng' (seed : Z) : RandomState :=
  if (seed =? 42)%Z then rng 42 else rng (seed + 1).

Definition row (entry machine cyc : Z) (failure : label) (s1 : Q) : record :=
  mkRecord entry machine cyc 0 0 failure [("s1", s1)].

(** Two machines, five cycles each, listed out of order. *)
Definition fleet : DataFrame :=
  [ row 6 2 1 "" 7; row 1 1 1 "" 1; row 7 2 2 "" 8; row 2 1 2 "" 2;
    row 8 2 3 "" 9; row 3 1 3 "" 3; row 9 2 4 "F1" 10; row 4 1 4 "" 4;
    row 10 2 5 "F1" 11; row 5 1 5 "F2" 5 ].

(** Ten machines with one row each. *)
Definition ten_machines : DataFrame :=
  map (fun i => row i i 1 "" (inject_Z i)) [1; 2; 3; 4; 5; 6; 7; 8; 9; 10].

Definition X6 : list vec :=
  [ [0; 0]; [1; 0]; [0; 1]; [4; 4]; [6; 4]; [10; 10] ]%Q.

Definition Y6 : list label := [ ""; ""; ""; "F1"; "F1"; "" ].

(** Thirteen rows: seven of the majority label, six of the minority. *)
Definition X13 : list vec :=
  [ [0; 0]; [1; 0]; [0; 1]; [1; 1]; [2; 0]; [0; 2]; [2; 2];
    [10; 10]; [11; 10]; [10; 11]; [11; 11]; [12; 10]; [10; 12] ]%Q.

Definition Y13 : list label :=
  [ ""; ""; ""; ""; ""; ""; ""; "F1"; "F1"; "F1"; "F1"; "F1"; "F1" ].

(** Three rows, the minority label occurring once. *)
Definition X3 : list vec := [ [0; 0]; [1; 1]; [5; 5] ]%Q.

Definition Y3 : list label := [ ""; ""; "F1" ].

Definition Y_scenario : list label :=
  (repeat "" 100 ++ repeat "F1" 5 ++ repeat "F2" 3)%list.

Definition X_scenario : list vec :=
  map (fun i => [inject_Z (Z.of_nat i); 1%Q]) (seq 0 108).

(** Labels with the class counts the notebook printed for its training
    set. *)
Definition Y_recorded : list label :=
  (repeat "" (Z.to_nat 51971) ++ repeat "F1" (Z.to_nat 924)
   ++ repeat "F2" (Z.to_nat 384))%list.

(** One machine, cycles 1 to 6 in [train] and 7 to 8 in [test]. *)
Definition early : DataFrame :=
  map (fun c => row c 1 c "" (inject_Z c)) [1; 2; 3; 4; 5; 6].

Definition late : DataFrame :=
  map (fun c => row c 1 c "" (inject_Z c)) [7; 8].

(** Fifteen rows: eight of the majority label, six of one minority label
    and a single row of another. *)
Definition X15 : list vec :=
  [ [0; 0]; [1; 0]; [0; 1]; [1; 1]; [2; 0]; [0; 2]; [2; 2]; [3; 3];
    [10; 10]; [11; 10]; [10; 11]; [11; 11]; [12; 10]; [10; 12];
    [20; 20] ]%Q.

Definition Y15 : list label :=
  [ ""; ""; ""; ""; ""; ""; ""; "";
    "F2"; "F2"; "F2"; "F2"; "F2"; "F2"; "F1" ].

(** An encoder that writes the kind of a value only. *)
Definition encoder (c : cell) : string :=
  match c with
  | Int _ => "int"
  | Float _ => "float"
  | Str s => s
  end.


(** A confusion matrix whose last class has no true label. *)
Definition cm_unseen : list (list Z) := [ [95; 3; 2]; [2; 18; 0]; [0; 0; 0] ].


End Sample.

(** * Properties *)

(** ** Results *)

Lemma bind_Ok_inv {A B : Type} (m : result A) (k : A -> result B) (b : B) :
  bind m k = Ok b -> exists a, m = Ok a /\ k a = Ok b.
Proof.
  destruct m as [a | e]; simpl; intros H.
  - exists a. split; [reflexivity | exact H].
  - discriminate H.
Qed.

(** [H : (' (a, b) <- m ;; Ok v) = Ok w]: name the pair [m] returned, keep
    [m = Ok (a, b)] as [Hm] and identify [v] with [w]. *)
Ltac bind_inversion H a b Hm :=
  apply bind_Ok_inv in H;
  destruct H as [[a b] [Hm H]];
  inversion H; subst; clear H.


(** ** Floats *)

Lemma Qltb_lt (a b : Q) : Qltb a b = true <-> (a < b)%Q.
Proof.
  unfold Qltb. rewrite negb_true_iff. split.
  - intros H. apply Qnot_le_lt. intros Hle.
    apply Qle_bool_iff in Hle. congruence.
  - intros H. destruct (Qle_bool b a) eqn:Hb; [| reflexivity].
    apply Qle_bool_iff in Hb. exfalso. exact (Qlt_not_le _ _ H Hb).
Qed.

Lemma Qltb_ge (a b : Q) : Qltb a b = false <-> (b <= a)%Q.
Proof.
  unfold Qltb. rewrite negb_false_iff. apply Qle_bool_iff.
Qed.

Lemma inject_Z_pos (z : Z) : 0 < z -> (0 < inject_Z z)%Q.
Proof. intros H. unfold Qlt. simpl. lia. Qed.

Lemma inject_Z_le (a b : Z) : a <= b -> (inject_Z a <= inject_Z b)%Q.
Proof. intros H. unfold Qle. simpl. lia. Qed.

Lemma two_not_0 : ~ (2 == 0)%Q.
Proof. discriminate. Qed.

Lemma pow2_pos (k : Z) : (0 < 2 ^ k)%Q.
Proof. apply Qpower_0_lt. reflexivity. Qed.

Lemma pow2_le (a b : Z) : a <= b -> (2 ^ a <= 2 ^ b)%Q.
Proof. intros H. apply Qpower_le_compat_l; [exact H | discriminate]. Qed.

Lemma pow2_inject (n : Z) : 0 <= n -> (inject_Z (2 ^ n) == 2 ^ n)%Q.
Proof. intros H. apply (Zpower_Qpower 2 n H). Qed.

Lemma pow2_div (a b : Z) : (2 ^ a / 2 ^ b == 2 ^ (a - b))%Q.
Proof.
  unfold Z.sub. rewrite Qpower_plus by exact two_not_0.
  rewrite Qpower_opp. reflexivity.
Qed.

(** [ilog2] does not overshoot. *)
Lemma ilog2_lower (q : Q) : (0 < q)%Q -> (2 ^ ilog2 q <= q)%Q.
Proof.
  intros Hq. unfold ilog2.
  set (k := Z.log2 (Qnum q) - Z.log2 (Z.pos (Qden q))).
  destruct (Qle_bool (2 ^ k) q) eqn:Hk; [apply Qle_bool_iff; exact Hk |].
  destruct q as [a b]. unfold Qlt in Hq. cbn [Qnum Qden] in Hq, k.
  change (Qnum 0) with 0 in Hq. rewrite Z.mul_0_l, Z.mul_1_r in Hq.
  destruct (Z.log2_spec a Hq) as [Ha _].
  destruct (Z.log2_spec (Z.pos b) (Pos2Z.is_pos b)) as [_ Hb].
  pose proof (Z.log2_nonneg a) as Hla.
  pose proof (Z.log2_nonneg (Z.pos b)) as Hlb.
  (* 2^(la - lb - 1) = 2^la / 2^(lb + 1) <= a / b *)
  setoid_replace (2 ^ (k - 1))%Q
    with (inject_Z (2 ^ Z.log2 a) / inject_Z (2 ^ Z.succ (Z.log2 (Z.pos b))))%Q.
  - assert (Hp : 0 < 2 ^ Z.succ (Z.log2 (Z.pos b)))
      by (apply Z.pow_pos_nonneg; lia).
    assert (Hp' : 0 <= 2 ^ Z.log2 a) by (apply Z.pow_nonneg; lia).
    apply Qle_shift_div_r; [apply inject_Z_pos; exact Hp |].
    set (x := 2 ^ Z.log2 a) in *.
    set (y := 2 ^ Z.succ (Z.log2 (Z.pos b))) in *.
    unfold Qle. simpl. rewrite Z.mul_1_r.
    apply Z.le_trans with (a * Z.pos b); [| nia].
    apply Z.mul_le_mono_nonneg; lia.
  - rewrite !pow2_inject by lia. rewrite pow2_div.
    unfold k. replace (Z.log2 a - Z.log2 (Z.pos b) - 1)
      with (Z.log2 a - Z.succ (Z.log2 (Z.pos b))) by lia.
    reflexivity.
Qed.

Lemma round_half_even_floor (x : Q) : Qfloor x <= round_half_even x.
Proof.
  unfold round_half_even.
  destruct (x - inject_Z (Qfloor x) ?= 1 # 2)%Q; [| lia | lia].
  destruct (Z.even (Qfloor x)); lia.
Qed.

Lemma Qfloor_lower (n : Z) (x : Q) : (inject_Z n <= x)%Q -> n <= Qfloor x.
Proof.
  intros H. rewrite <- (Qfloor_Z n). apply Qfloor_resp_le. exact H.
Qed.

(** A positive rational that is at least a power of two of the binary64
    range rounds to a float that is at least this power. *)
Lemma float64_pos_lower (q : Q) (k : Z) :
  (0 < q)%Q -> -1074 <= k -> (2 ^ k <= q)%Q ->
  float64_pos q = PosInf \/
  exists v, float64_pos q = Finite v /\ (2 ^ k <= v)%Q.
Proof.
  intros Hq Hk Hle. unfold float64_pos.
  set (e := Z.max (ilog2 q - 52) (-1074)).
  set (m := round_half_even (q / 2 ^ e)).
  destruct (Qle_bool (2 ^ 1024) (inject_Z m * 2 ^ e)); [left; reflexivity |].
  right. eexists. split; [reflexivity |].
  set (t := Z.max k e).
  assert (Ht : (2 ^ t <= q)%Q).
  { unfold t. destruct (Z.max_spec k e) as [[_ ->] | [_ ->]].
    - unfold e. destruct (Z.max_spec (ilog2 q - 52) (-1074)) as [[_ ->] | [_ ->]].
      + apply Qle_trans with (2 ^ k)%Q; [apply pow2_le; exact Hk | exact Hle].
      + apply Qle_trans with (2 ^ ilog2 q)%Q;
          [apply pow2_le; lia | apply ilog2_lower; exact Hq].
    - exact Hle. }
  assert (Hm : 2 ^ (t - e) <= m).
  { unfold m. eapply Z.le_trans; [| apply round_half_even_floor].
    apply Qfloor_lower. rewrite pow2_inject by (unfold t; lia).
    rewrite <- pow2_div. apply Qmult_le_compat_r; [exact Ht |].
    apply Qlt_le_weak. apply Qinv_lt_0_compat. apply pow2_pos. }
  apply Qle_trans with (2 ^ t)%Q; [apply pow2_le; unfold t; lia |].
  setoid_replace (2 ^ t)%Q with (inject_Z (2 ^ (t - e)) * 2 ^ e)%Q.
  - apply Qmult_le_compat_r; [| apply Qlt_le_weak; apply pow2_pos].
    apply inject_Z_le. exact Hm.
  - rewrite pow2_inject by (unfold t; lia).
    rewrite <- Qpower_plus by exact two_not_0.
    replace (t - e + e) with t by lia. reflexivity.
Qed.

(** A positive rational never rounds below zero, and a positive float is
    at least the smallest one. *)
Lemma float64_pos_nonneg (q : Q) :
  (0 < q)%Q ->
  float64_pos q = PosInf \/
  exists v, float64_pos q = Finite v /\ (0 <= v)%Q /\
            ((0 < v)%Q -> (2 ^ (-1074) <= v)%Q).
Proof.
  intros Hq. unfold float64_pos.
  set (e := Z.max (ilog2 q - 52) (-1074)).
  set (m := round_half_even (q / 2 ^ e)).
  destruct (Qle_bool (2 ^ 1024) (inject_Z m * 2 ^ e)); [left; reflexivity |].
  right. eexists. split; [reflexivity |].
  assert (Hm : 0 <= m).
  { unfold m. eapply Z.le_trans; [| apply round_half_even_floor].
    apply Qfloor_lower. apply Qlt_le_weak.
    apply Qlt_shift_div_l; [apply pow2_pos |]. rewrite Qmult_0_l. exact Hq. }
  split.
  - apply Qmult_le_0_compat; [apply (inject_Z_le 0 m); exact Hm |].
    apply Qlt_le_weak. apply pow2_pos.
  - intros Hv.
    assert (Hm1 : 1 <= m).
    { destruct (Z.eq_dec m 0) as [Hz | Hnz]; [| lia].
      rewrite Hz in Hv. rewrite Qmult_0_l in Hv.
      exfalso. exact (Qlt_irrefl _ Hv). }
    apply Qle_trans with (2 ^ e)%Q; [apply pow2_le; unfold e; lia |].
    rewrite <- (Qmult_1_l (2 ^ e)) at 1.
    apply Qmult_le_compat_r; [| apply Qlt_le_weak; apply pow2_pos].
    apply (inject_Z_le 1 m). exact Hm1.
Qed.

(** [float64] sees the number, not the fraction that denotes it. *)
Lemma float64_compat (p q : Q) : (p == q)%Q -> float64 p = float64 q.
Proof.
  intros H. unfold float64. rewrite (Qred_complete p q H). reflexivity.
Qed.

Lemma float64_positive (q : Q) :
  (0 < q)%Q -> float64 q = float64_pos (Qred q) /\ (0 < Qred q)%Q.
Proof.
  intros Hq. assert (Hr : (0 < Qred q)%Q) by (rewrite Qred_correct; exact Hq).
  split; [| exact Hr]. unfold float64.
  apply Qgt_alt in Hr. rewrite Hr. reflexivity.
Qed.

Lemma float64_lower (q : Q) (k : Z) :
  -1074 <= k -> (2 ^ k <= q)%Q ->
  float64 q = PosInf \/ exists v, float64 q = Finite v /\ (2 ^ k <= v)%Q.
Proof.
  intros Hk Hle.
  assert (Hq : (0 < q)%Q) by (eapply Qlt_le_trans; [apply pow2_pos | exact Hle]).
  destruct (float64_positive q Hq) as [-> Hr].
  apply float64_pos_lower; [exact Hr | exact Hk |].
  rewrite Qred_correct. exact Hle.
Qed.

(** The sign of a float and of the number it rounds. *)
Lemma float64_sign (q : Q) :
  match float64 q with
  | Finite v => ((0 < v -> 0 < q /\ 2 ^ (-1074) <= v) /\ (v < 0 -> q < 0))%Q
  | PosInf => (0 < q)%Q
  | NegInf => (q < 0)%Q
  | NaN => False
  end.
Proof.
  unfold float64. destruct (Qcompare_spec (Qred q) 0) as [Hz | Hlt | Hgt].
  - split; intros H; exfalso; exact (Qlt_irrefl _ H).
  - rewrite Qred_correct in Hlt.
    assert (Hneg : (0 < - Qred q)%Q).
    { rewrite Qred_correct. apply (Qopp_lt_compat q 0). exact Hlt. }
    destruct (float64_pos_nonneg _ Hneg) as [-> | [v [-> [Hv _]]]]; simpl.
    + exact Hlt.
    + split; intros H; [| exact Hlt].
      exfalso. apply (Qopp_le_compat 0 v) in Hv.
      exact (Qlt_irrefl _ (Qlt_le_trans _ _ _ H Hv)).
  - assert (Hq : (0 < q)%Q) by (rewrite <- (Qred_correct q); exact Hgt).
    destruct (float64_pos_nonneg _ Hgt) as [-> | [v [-> [Hv Hmin]]]].
    + exact Hq.
    + split; intros H.
      * split; [exact Hq | exact (Hmin H)].
      * exfalso. exact (Qlt_irrefl _ (Qlt_le_trans _ _ _ H Hv)).
Qed.

(** The float of a positive count is at least 1. *)
Lemma float64_count (n : Z) :
  0 < n ->
  float64 (inject_Z n) = PosInf \/
  exists v, float64 (inject_Z n) = Finite v /\ (1 <= v)%Q.
Proof.
  intros Hn. apply (float64_lower (inject_Z n) 0); [lia |].
  apply (inject_Z_le 1 n). lia.
Qed.

Lemma float64_0 : float64 (inject_Z 0) = Finite 0.
Proof. reflexivity. Qed.

(** The product of a positive float and of the float of a positive count is
    a positive float. *)
Lemma np_times_positive (q : Q) (f : Q) (n : Z) :
  float64 f = Finite q -> (0 < q)%Q -> 0 < n ->
  np_times (float64 (inject_Z n)) (Finite q) = PosInf \/
  exists v, np_times (float64 (inject_Z n)) (Finite q) = Finite v /\
            (0 < v)%Q.
Proof.
  intros Hf Hq Hn.
  pose proof (float64_sign f) as Hsign. rewrite Hf in Hsign.
  destruct Hsign as [Hpos _]. destruct (Hpos Hq) as [_ Hmin].
  destruct (float64_count n Hn) as [-> | [v [-> Hv]]].
  - left. simpl. apply Qltb_lt in Hq. rewrite Hq. reflexivity.
  - simpl.
    assert (Hprod : (2 ^ (-1074) <= v * q)%Q).
    { rewrite <- (Qmult_1_l (2 ^ (-1074))).
      apply Qmult_le_compat_nonneg; split;
        [discriminate | exact Hv | apply Qlt_le_weak; apply pow2_pos
        | exact Hmin]. }
    destruct (float64_lower (v * q) (-1074)) as [-> | [w [-> Hw]]];
      [lia | exact Hprod | left; reflexivity |].
    right. exists w. split; [reflexivity |].
    eapply Qlt_le_trans; [apply pow2_pos | exact Hw].
Qed.

Lemma np_times_comm (x y : np_float) : np_times x y = np_times y x.
Proof.
  destruct x as [a | | |], y as [b | | |]; try reflexivity.
  simpl. apply float64_compat. apply Qmult_comm.
Qed.

(** A count of at most 2^53 that a number reaches is reached by its
    float. *)
Lemma float64_pos_ge_int (q : Q) (c : Z) :
  0 < c <= 2 ^ 53 -> (inject_Z c <= q)%Q ->
  float64_pos q = PosInf \/
  exists v, float64_pos q = Finite v /\ (inject_Z c <= v)%Q.
Proof.
  intros [Hc Hc53] Hle.
  assert (Hq : (0 < q)%Q).
  { eapply Qlt_le_trans; [apply inject_Z_pos; exact Hc | exact Hle]. }
  destruct (Z_le_gt_dec (Z.max (ilog2 q - 52) (-1074)) 0) as [He | He].
  - unfold float64_pos.
    set (e := Z.max (ilog2 q - 52) (-1074)) in *.
    set (m := round_half_even (q / 2 ^ e)).
    destruct (Qle_bool (2 ^ 1024) (inject_Z m * 2 ^ e)); [left; reflexivity |].
    right. eexists. split; [reflexivity |].
    assert (Hinv : (/ 2 ^ e == inject_Z (2 ^ (- e)))%Q).
    { rewrite pow2_inject by lia. rewrite Qpower_opp. reflexivity. }
    assert (Hm : c * 2 ^ (- e) <= m).
    { unfold m. eapply Z.le_trans; [| apply round_half_even_floor].
      apply Qfloor_lower. rewrite inject_Z_mult. unfold Qdiv. rewrite Hinv.
      apply Qmult_le_compat_r; [exact Hle |].
      apply (inject_Z_le 0). apply Z.pow_nonneg. lia. }
    setoid_replace (inject_Z c) with (inject_Z (c * 2 ^ (- e)) * 2 ^ e)%Q.
    + apply Qmult_le_compat_r; [| apply Qlt_le_weak; apply pow2_pos].
      apply inject_Z_le. exact Hm.
    + rewrite inject_Z_mult, <- Hinv, <- Qmult_assoc.
      rewrite (Qmult_comm (/ 2 ^ e)), Qmult_inv_r, Qmult_1_r; [reflexivity |].
      intros Hz. pose proof (pow2_pos e) as Hp. rewrite Hz in Hp.
      exact (Qlt_irrefl _ Hp).
  - assert (HL : 52 < ilog2 q) by lia.
    destruct (float64_pos_lower q (ilog2 q) Hq) as [Hinf | [v [Hv Hlow]]];
      [lia | apply ilog2_lower; exact Hq | left; exact Hinf |].
    right. exists v. split; [exact Hv |].
    apply Qle_trans with (2 ^ ilog2 q)%Q; [| exact Hlow].
    apply Qle_trans with (2 ^ 53)%Q; [| apply pow2_le; lia].
    rewrite <- (pow2_inject 53) by lia. apply inject_Z_le. exact Hc53.
Qed.

Lemma float64_ge_int (q : Q) (c : Z) :
  0 < c <= 2 ^ 53 -> (inject_Z c <= q)%Q ->
  float64 q = PosInf \/
  exists v, float64 q = Finite v /\ (inject_Z c <= v)%Q.
Proof.
  intros Hc Hle.
  assert (Hq : (0 < q)%Q).
  { eapply Qlt_le_trans; [apply inject_Z_pos; apply Hc | exact Hle]. }
  destruct (float64_positive q Hq) as [-> Hr].
  apply float64_pos_ge_int; [exact Hc |]. rewrite Qred_correct. exact Hle.
Qed.

(** Truncation does not go below an integer the number reaches. *)
Lemma int_ge (v : Q) (c : Z) :
  0 <= c -> (inject_Z c <= v)%Q ->
  exists n, int (Finite v) = Ok n /\ c <= n.
Proof.
  intros Hc Hle. simpl. eexists. split; [reflexivity |].
  destruct v as [a d]. unfold Qle in Hle. simpl in *.
  apply Z.quot_le_lower_bound; [lia |]. nia.
Qed.
(** ** Leakage trimming *)

Lemma lookup_update_min (e m c : Z) (groups : list (Z * Z)) :
  lookup e (update_min m c groups) =
  if m =? e then
    Some (match lookup m groups with
          | Some c' => Z.min c' c
          | None => c
          end)
  else lookup e groups.
Proof.
  induction groups as [| [m' c'] rest IH]; simpl.
  - destruct (m =? e); reflexivity.
  - destruct (m' =? m) eqn:Hm; simpl.
    + apply Z.eqb_eq in Hm. subst m'.
      destruct (m =? e); reflexivity.
    + destruct (m' =? e) eqn:He; simpl.
      * apply Z.eqb_eq in He. subst m'.
        rewrite Z.eqb_sym, Hm. reflexivity.
      * exact IH.
Qed.

Lemma groupby_cycle_min_snoc (d : DataFrame) (r : record) :
  groupby_cycle_min (d ++ [r]) =
  update_min (machineID r) (cycle r) (groupby_cycle_min d).
Proof.
  unfold groupby_cycle_min. rewrite fold_left_app. reflexivity.
Qed.

(** What the group table holds for an entity: its minimum cycle, or nothing
    when the entity has no row. *)
Lemma groupby_cycle_min_spec (d : DataFrame) (e : Z) :
  match lookup e (groupby_cycle_min d) with
  | Some m => min_test_cycle d e m
  | None => ~ has_rows_in d e
  end.
Proof.
  induction d as [| r d IH] using rev_ind.
  - simpl. intros [r [[] _]].
  - rewrite groupby_cycle_min_snoc, lookup_update_min.
    destruct (machineID r =? e) eqn:He.
    + apply Z.eqb_eq in He. rewrite He.
      destruct (lookup e (groupby_cycle_min d)) as [m |].
      * destruct IH as [[r0 [Hin [Hid Hc]]] Hle].
        split.
        -- destruct (Z.min_spec m (cycle r)) as [[_ Hmin] | [_ Hmin]];
             rewrite Hmin.
           ++ exists r0. rewrite in_app_iff. auto.
           ++ exists r. rewrite in_app_iff. simpl. auto.
        -- intros r1 Hin1 Hid1. apply in_app_iff in Hin1.
           destruct Hin1 as [Hin1 | [Heq | []]].
           ++ specialize (Hle r1 Hin1 Hid1). lia.
           ++ subst r1. lia.
      * split.
        -- exists r. rewrite in_app_iff. simpl. auto.
        -- intros r1 Hin1 Hid1. apply in_app_iff in Hin1.
           destruct Hin1 as [Hin1 | [Heq | []]].
           ++ exfalso. apply IH. exists r1. auto.
           ++ subst r1. lia.
    + apply Z.eqb_neq in He.
      destruct (lookup e (groupby_cycle_min d)) as [m |].
      * destruct IH as [[r0 [Hin [Hid Hc]]] Hle].
        split.
        -- exists r0. rewrite in_app_iff. auto.
        -- intros r1 Hin1 Hid1. apply in_app_iff in Hin1.
           destruct Hin1 as [Hin1 | [Heq | []]].
           ++ auto.
           ++ subst r1. contradiction.
      * intros [r1 [Hin1 Hid1]]. apply in_app_iff in Hin1.
        destruct Hin1 as [Hin1 | [Heq | []]].
        -- apply IH. exists r1. auto.
        -- subst r1. contradiction.
Qed.

Lemma lookup_map_sub (e lookback : Z) (groups : list (Z * Z)) :
  lookup e (map (fun g => (fst g, snd g - lookback)) groups) =
  option_map (fun c => c - lookback) (lookup e groups).
Proof.
  induction groups as [| [m c] rest IH]; simpl.
  - reflexivity.
  - destruct (m =? e); [reflexivity | exact IH].
Qed.

Lemma min_test_cycle_unique (test : DataFrame) (e m m' : Z) :
  min_test_cycle test e m -> min_test_cycle test e m' -> m = m'.
Proof.
  intros [[r [Hin [Hid Hc]]] Hle] [[r' [Hin' [Hid' Hc']]] Hle'].
  specialize (Hle r' Hin' Hid'). specialize (Hle' r Hin Hid). lia.
Qed.

Lemma min_test_cycle_exists (test : DataFrame) (e : Z) :
  has_rows_in test e -> exists m, min_test_cycle test e m.
Proof.
  intros Hrows. pose proof (groupby_cycle_min_spec test e) as Hspec.
  destruct (lookup e (groupby_cycle_min test)) as [m |].
  - exists m. exact Hspec.
  - contradiction.
Qed.

Lemma trim_leakage_In (lookback : Z) (train test : DataFrame) (r : record) :
  In r (trim_leakage lookback train test) <->
  In r train /\
  match lookup (machineID r) (groupby_cycle_min test) with
  | Some m => cycle r < m - lookback
  | None => True
  end.
Proof.
  unfold trim_leakage, join_max_cycle, min_cycles.
  rewrite in_map_iff. split.
  - intros [[r' mc] [Hfst Hin]]. simpl in Hfst. subst r'.
    apply filter_In in Hin. destruct Hin as [Hin Hkeep].
    apply in_map_iff in Hin. destruct Hin as [r' [Heq Hin]].
    inversion Heq; subst r' mc. clear Heq.
    split; [exact Hin |].
    unfold keep_row in Hkeep. simpl in Hkeep.
    rewrite lookup_map_sub in Hkeep.
    destruct (lookup (machineID r) (groupby_cycle_min test)); simpl in Hkeep.
    + apply Z.ltb_lt. exact Hkeep.
    + exact I.
  - intros [Hin Hc].
    exists (r, lookup (machineID r)
                 (map (fun g => (fst g, snd g - lookback))
                      (groupby_cycle_min test))).
    split; [reflexivity |].
    apply filter_In. split.
    + apply in_map_iff. exists r. auto.
    + unfold keep_row. simpl. rewrite lookup_map_sub.
      destruct (lookup (machineID r) (groupby_cycle_min test)); simpl.
      * apply Z.ltb_lt. exact Hc.
      * reflexivity.
Qed.

Lemma split_time_based_inv (rng : Z -> RandomState) (data : DataFrame)
    (test_size : Q) (lookback seed : Z) (train test : DataFrame) :
  split rng data true test_size lookback seed = Ok (train, test) ->
  exists rough_train,
    train_test_split rng (sort_index data) test_size None
      = Ok (rough_train, test) /\
    train = trim_leakage lookback rough_train test.
Proof.
  unfold split, time_based_split. intros H.
  bind_inversion H rough_train test' Hcut.
  exists rough_train. split; [exact Hcut | reflexivity].
Qed.

(** ** train_test_split *)

Lemma valid_fraction_check (f : Q) :
  np_lt (Finite 0) (float64 f) && np_lt (float64 f) (Finite 1) = true
  <-> valid_fraction f.
Proof.
  unfold valid_fraction. rewrite andb_true_iff. split.
  - intros [H0 H1]. destruct (float64 f) as [q | | |]; simpl in *;
      try discriminate.
    exists q. rewrite !Qltb_lt in *. auto.
  - intros [q [-> [H0 H1]]]. simpl. rewrite !Qltb_lt. auto.
Qed.

Lemma train_test_split_invalid (rng : Z -> RandomState) {A : Type}
    (arrays : list A) (f : Q) (shuffle : option Z) :
  ~ valid_fraction f ->
  train_test_split rng arrays f shuffle = Raise InvalidConfiguration.
Proof.
  intros Hf. unfold train_test_split.
  destruct (np_lt (Finite 0) (float64 f) && np_lt (float64 f) (Finite 1))
    eqn:Hchk.
  - exfalso. apply Hf. apply valid_fraction_check. exact Hchk.
  - reflexivity.
Qed.

Lemma train_test_split_empty (rng : Z -> RandomState) {A : Type}
    (f : Q) (shuffle : option Z) :
  valid_fraction f ->
  train_test_split rng (@nil A) f shuffle = Raise EmptyDataset.
Proof.
  intros Hf. apply valid_fraction_check in Hf.
  unfold train_test_split. rewrite Hf. reflexivity.
Qed.

Lemma train_test_split_succeeds (rng : Z -> RandomState) {A : Type}
    (arrays : list A) (f : Q) (shuffle : option Z) :
  valid_fraction f -> arrays <> [] ->
  succeeds (train_test_split rng arrays f shuffle) = true.
Proof.
  intros Hf Hne. apply valid_fraction_check in Hf.
  unfold train_test_split. rewrite Hf. simpl.
  destruct arrays as [| a rest]; [contradiction |].
  simpl length. cbv iota. destruct shuffle; reflexivity.
Qed.

(** A fraction the split accepts asks for at least one test element. *)
Lemma ceil_fraction_positive (f : Q) (n : nat) :
  valid_fraction f -> (0 < n)%nat -> (1 <= ceil_fraction f n)%nat.
Proof.
  intros [q [Hf [Hq _]]] Hn. unfold ceil_fraction.
  rewrite np_times_comm, Hf.
  destruct (np_times_positive q f (Z.of_nat n) Hf Hq) as [-> | [v [-> Hv]]];
    [lia | exact Hn |].
  pose proof (Qle_ceiling v) as Hup.
  assert (H : (0 < inject_Z (Qceiling v))%Q)
    by (eapply Qlt_le_trans; eassumption).
  unfold Qlt in H. simpl in H. lia.
Qed.

Lemma safe_indexing_app {A : Type} (a : list A) (i j : list nat) :
  safe_indexing a (i ++ j) = safe_indexing a i ++ safe_indexing a j.
Proof. unfold safe_indexing. apply flat_map_app. Qed.

Lemma safe_indexing_range {A : Type} (pre a : list A) :
  safe_indexing (pre ++ a) (seq (length pre) (length a)) = a.
Proof.
  revert pre. induction a as [| x a IH]; intros pre.
  - reflexivity.
  - simpl. rewrite nth_error_app2 by lia. rewrite Nat.sub_diag. simpl.
    f_equal. specialize (IH (pre ++ [x])).
    rewrite <- app_assoc in IH. simpl in IH.
    rewrite length_app in IH. simpl in IH.
    rewrite Nat.add_1_r in IH. exact IH.
Qed.

Lemma safe_indexing_all {A : Type} (a : list A) :
  safe_indexing a (seq 0 (length a)) = a.
Proof. exact (safe_indexing_range [] a). Qed.

Lemma safe_indexing_Permutation {A : Type} (a : list A) (p : list nat) :
  Permutation p (seq 0 (length a)) -> Permutation (safe_indexing a p) a.
Proof.
  intros Hp. rewrite <- (safe_indexing_all a) at 2.
  unfold safe_indexing. apply Permutation_flat_map. exact Hp.
Qed.

Lemma In_firstn {A : Type} (k : nat) (l : list A) (x : A) :
  In x (firstn k l) -> In x l.
Proof.
  intros H. rewrite <- (firstn_skipn k l). apply in_or_app. left. exact H.
Qed.

Lemma In_skipn {A : Type} (k : nat) (l : list A) (x : A) :
  In x (skipn k l) -> In x l.
Proof.
  intros H. rewrite <- (firstn_skipn k l). apply in_or_app. right. exact H.
Qed.

Lemma firstn_then_rest {A : Type} (p : list A) (k : nat) :
  firstn k p ++ firstn (length p - k) (skipn k p) = p.
Proof.
  rewrite <- (length_skipn k p). rewrite firstn_all. apply firstn_skipn.
Qed.

(** With a well-formed generator, the shuffled split hands out every element
    exactly once. *)
Lemma train_test_split_shuffled (rng : Z -> RandomState) {A : Type}
    (arrays train test : list A) (f : Q) (seed : Z) :
  RandomState_wf (rng seed) ->
  train_test_split rng arrays f (Some seed) = Ok (train, test) ->
  Permutation (test ++ train) arrays /\
  length test = Nat.min (ceil_fraction f (length arrays)) (length arrays).
Proof.
  intros Hwf. unfold train_test_split.
  destruct (negb (np_lt (Finite 0) (float64 f) && np_lt (float64 f) (Finite 1)));
    [discriminate |].
  destruct (length arrays) as [| n] eqn:Hlen; [discriminate |].
  rewrite <- Hlen. intros H. inversion H; subst train test. clear H.
  pose proof (permutation_wf _ Hwf (length arrays)) as Hperm.
  set (p := permutation (rng seed) (length arrays)) in *.
  set (k := ceil_fraction f (length arrays)).
  assert (Hplen : length p = length arrays).
  { rewrite (Permutation_length Hperm). apply length_seq. }
  split.
  - rewrite <- safe_indexing_app.
    rewrite <- Hplen. rewrite firstn_then_rest.
    apply safe_indexing_Permutation. exact Hperm.
  - assert (Hall : forall idx, Forall (fun i => (i < length arrays)%nat) idx ->
                   length (safe_indexing arrays idx) = length idx).
    { induction idx as [| i idx IH]; intros Hidx; [reflexivity |].
      inversion Hidx; subst. simpl.
      destruct (nth_error arrays i) eqn:Hnth.
      - simpl. f_equal. apply IH. assumption.
      - apply nth_error_None in Hnth. lia. }
    rewrite Hall.
    + rewrite length_firstn, Hplen. reflexivity.
    + apply Forall_forall. intros i Hi.
      apply In_firstn in Hi.
      apply (Permutation_in _ Hperm) in Hi. apply in_seq in Hi. lia.
Qed.

(** ** Time-based split *)

Lemma insert_by_index_Permutation (r : record) (d : DataFrame) :
  Permutation (insert_by_index r d) (r :: d).
Proof.
  induction d as [| r' d IH]; simpl.
  - reflexivity.
  - destruct (entryID r <=? entryID r').
    + reflexivity.
    + rewrite IH. apply perm_swap.
Qed.

Lemma sort_index_Permutation (d : DataFrame) : Permutation (sort_index d) d.
Proof.
  unfold sort_index. induction d as [| r d IH]; simpl.
  - reflexivity.
  - rewrite insert_by_index_Permutation. apply perm_skip. exact IH.
Qed.

Lemma split_time_based_succeeds (rng : Z -> RandomState) (data : DataFrame)
    (test_size : Q) (lookback seed : Z) :
  data <> [] -> valid_fraction test_size ->
  succeeds (split rng data true test_size lookback seed) = true.
Proof.
  intros Hne Hf. unfold split, time_based_split.
  pose proof (train_test_split_succeeds rng (sort_index data) test_size None Hf)
    as Hs.
  destruct (train_test_split rng (sort_index data) test_size None)
    as [[tr te] | e].
  - reflexivity.
  - simpl in Hs. apply Hs. intros Hnil.
    pose proof (Permutation_length (sort_index_Permutation data)) as Hlen.
    rewrite Hnil in Hlen. destruct data; [contradiction | discriminate].
Qed.

(** C2. Time-based split of a non-empty dataset (with a fraction the split
    accepts) succeeds.  A row kept in the training split whose entity has
    rows in the test split has a cycle strictly below that entity's minimum
    test cycle minus [lookback]; a row of the rough training cut whose entity
    has no row in the test split is kept. *)
Theorem time_split_trims_leakage (rng : Z -> RandomState) (data : DataFrame)
    (test_size : Q) (lookback seed : Z) :
  (data <> [] -> valid_fraction test_size ->
   succeeds (split rng data true test_size lookback seed) = true) /\
  (forall train test,
     split rng data true test_size lookback seed = Ok (train, test) ->
     exists rough_train,
       train_test_split rng (sort_index data) test_size None
         = Ok (rough_train, test) /\
       (forall r, In r train -> In r rough_train) /\
       (forall r, In r train -> has_rows_in test (machineID r) ->
          exists m, min_test_cycle test (machineID r) m /\
                    cycle r < m - lookback) /\
       (forall r, In r rough_train -> ~ has_rows_in test (machineID r) ->
          In r train)).
Proof.
  split; [apply split_time_based_succeeds |].
  intros train test H. apply split_time_based_inv in H.
  destruct H as [rough_train [Hcut Htrain]]. subst train.
  exists rough_train. split; [exact Hcut |].
  split; [| split].
  - intros r Hin. apply trim_leakage_In in Hin. tauto.
  - intros r Hin Hrows. apply trim_leakage_In in Hin. destruct Hin as [_ Hc].
    pose proof (groupby_cycle_min_spec test (machineID r)) as Hspec.
    destruct (lookup (machineID r) (groupby_cycle_min test)) as [m |].
    + exists m. split; assumption.
    + contradiction.
  - intros r Hin Hnone. apply trim_leakage_In. split; [exact Hin |].
    pose proof (groupby_cycle_min_spec test (machineID r)) as Hspec.
    destruct (lookup (machineID r) (groupby_cycle_min test)) as [m |].
    + exfalso. apply Hnone. destruct Hspec as [[r0 [Hin0 [Hid0 _]]] _].
      exists r0. auto.
    + exact I.
Qed.

Lemma time_split_trims_leakage_witness :
  succeeds (split Sample.rng Sample.fleet true (2 # 10) 1 42) = true /\
  (forall train test,
     split Sample.rng Sample.fleet true (2 # 10) 1 42 = Ok (train, test) ->
     exists rough_train,
       train_test_split Sample.rng (sort_index Sample.fleet) (2 # 10) None
         = Ok (rough_train, test) /\
       (forall r, In r train -> In r rough_train) /\
       (forall r, In r train -> has_rows_in test (machineID r) ->
          exists m, min_test_cycle test (machineID r) m /\ cycle r < m - 1) /\
       (forall r, In r rough_train -> ~ has_rows_in test (machineID r) ->
          In r train)).
Proof.
  destruct (time_split_trims_leakage Sample.rng Sample.fleet (2 # 10) 1 42)
    as [Hok Htrim].
  split; [| exact Htrim].
  apply Hok; [discriminate |].
  apply valid_fraction_check. vm_compute. reflexivity.
Defined.

(** ** Asset ID-based split *)

Lemma In_unique (l : list Z) (x : Z) : In x (unique l) <-> In x l.
Proof.
  induction l as [| y l IH]; simpl.
  - reflexivity.
  - rewrite filter_In, IH, negb_true_iff, Z.eqb_neq.
    destruct (Z.eq_dec y x) as [Heq | Hne].
    + subst. tauto.
    + split; [tauto |]. intros [H | H]; [tauto |]. right. split; congruence.
Qed.

Lemma NoDup_unique (l : list Z) : NoDup (unique l).
Proof.
  induction l as [| y l IH]; simpl.
  - constructor.
  - constructor.
    + rewrite filter_In, negb_true_iff, Z.eqb_neq. tauto.
    + apply NoDup_filter. exact IH.
Qed.

Lemma isin_In (m : Z) (values : list Z) : isin m values = true <-> In m values.
Proof.
  unfold isin. rewrite existsb_exists. split.
  - intros [x [Hin Heq]]. apply Z.eqb_eq in Heq. subst. exact Hin.
  - intros Hin. exists m. split; [exact Hin | apply Z.eqb_refl].
Qed.

Lemma entities_isin (data : DataFrame) (assets : list Z) (e : Z) :
  In e (entities (filter (fun r => isin (machineID r) assets) data)) <->
  In e (entities data) /\ In e assets.
Proof.
  unfold entities. rewrite !in_map_iff. split.
  - intros [r [Hid Hin]]. apply filter_In in Hin. destruct Hin as [Hin Hisin].
    apply isin_In in Hisin. subst e. split; [exists r; auto | exact Hisin].
  - intros [[r [Hid Hin]] Hassets]. exists r. split; [exact Hid |].
    apply filter_In. split; [exact Hin |]. apply isin_In. subst e. exact Hassets.
Qed.

Lemma split_asset_based_inv (rng : Z -> RandomState) (data : DataFrame)
    (test_size : Q) (lookback seed : Z) (train test : DataFrame) :
  split rng data false test_size lookback seed = Ok (train, test) ->
  exists train_assets test_assets,
    train_test_split rng (unique (map machineID data)) test_size (Some seed)
      = Ok (train_assets, test_assets) /\
    train = filter (fun r => isin (machineID r) train_assets) data /\
    test = filter (fun r => isin (machineID r) test_assets) data.
Proof.
  unfold split, asset_based_split. intros H.
  bind_inversion H train_assets test_assets Hs.
  exists train_assets, test_assets. auto.
Qed.

(** The drawn assets: disjoint, and together all of them. *)
Lemma drawn_assets (rng : Z -> RandomState) (data : DataFrame) (f : Q)
    (seed : Z) (train_assets test_assets : list Z) :
  RandomState_wf (rng seed) ->
  train_test_split rng (unique (map machineID data)) f (Some seed)
    = Ok (train_assets, test_assets) ->
  NoDup (test_assets ++ train_assets) /\
  (forall e, In e (entities data) <-> In e test_assets \/ In e train_assets).
Proof.
  intros Hwf Hs. apply train_test_split_shuffled in Hs; [| exact Hwf].
  destruct Hs as [Hperm _]. split.
  - apply (Permutation_NoDup (Permutation_sym Hperm)). apply NoDup_unique.
  - intros e. unfold entities. rewrite <- In_unique, <- in_app_iff. split.
    + apply Permutation_in. apply Permutation_sym. exact Hperm.
    + apply Permutation_in. exact Hperm.
Qed.

Lemma NoDup_app_disjoint {A : Type} (l1 l2 : list A) (x : A) :
  NoDup (l1 ++ l2) -> In x l1 -> In x l2 -> False.
Proof.
  induction l1 as [| a l1 IH]; simpl; intros Hnd H1 H2.
  - exact H1.
  - inversion Hnd as [| ? ? Hnotin Hnd']; subst.
    destruct H1 as [Heq | H1].
    + subst. apply Hnotin. apply in_or_app. right. exact H2.
    + exact (IH Hnd' H1 H2).
Qed.

Lemma NoDup_app_parts {A : Type} (l1 l2 : list A) :
  NoDup (l1 ++ l2) -> NoDup l1 /\ NoDup l2.
Proof.
  induction l1 as [| a l1 IH]; simpl; intros Hnd.
  - split; [constructor | exact Hnd].
  - inversion Hnd as [| ? ? Hnotin Hnd']; subst.
    destruct (IH Hnd') as [H1 H2]. split; [| exact H2].
    constructor; [| exact H1].
    intros Hin. apply Hnotin. apply in_or_app. left. exact Hin.
Qed.

Lemma split_asset_based_succeeds (rng : Z -> RandomState) (data : DataFrame)
    (test_size : Q) (lookback seed : Z) :
  data <> [] -> valid_fraction test_size ->
  succeeds (split rng data false test_size lookback seed) = true.
Proof.
  intros Hne Hf. unfold split, asset_based_split.
  pose proof (train_test_split_succeeds rng (unique (map machineID data))
                test_size (Some seed) Hf) as Hs.
  destruct (train_test_split rng (unique (map machineID data)) test_size
              (Some seed)) as [[tr te] | e].
  - reflexivity.
  - simpl in Hs. apply Hs.
    destruct data as [| r data]; [contradiction | discriminate].
Qed.

(** C3. Asset ID-based split of a non-empty dataset (with a fraction the
    split accepts) succeeds; no entity appears in both splits, and every
    entity of the dataset appears in one of them. *)
Theorem asset_split_partitions_entities (rng : Z -> RandomState)
    (data : DataFrame) (test_size : Q) (lookback seed : Z) :
  RandomState_wf (rng seed) ->
  (data <> [] -> valid_fraction test_size ->
   succeeds (split rng data false test_size lookback seed) = true) /\
  (forall train test,
     split rng data false test_size lookback seed = Ok (train, test) ->
     (forall e, ~ (In e (entities train) /\ In e (entities test))) /\
     (forall e, In e (entities data) <->
                In e (entities train) \/ In e (entities test))).
Proof.
  intros Hwf. split.
  - apply split_asset_based_succeeds.
  - intros train test Hsplit.
    apply split_asset_based_inv in Hsplit.
    destruct Hsplit as [train_assets [test_assets [Hs [Htrain Htest]]]].
    subst train test.
    destruct (drawn_assets _ _ _ _ _ _ Hwf Hs) as [Hnd Hall].
    split.
    + intros e [Htr Hte].
      apply entities_isin in Htr. apply entities_isin in Hte.
      apply (NoDup_app_disjoint _ _ e Hnd); tauto.
    + intros e. rewrite !entities_isin. rewrite (Hall e). tauto.
Qed.

Lemma Sample_rng_wf (seed : Z) : RandomState_wf (Sample.rng seed).
Proof.
  constructor.
  - intros n. simpl.
    etransitivity; [apply Permutation_app_comm |].
    rewrite firstn_skipn. reflexivity.
  - intros i. simpl. unfold Qle. simpl. lia.
Qed.

Lemma asset_split_partitions_entities_witness :
  succeeds (split Sample.rng Sample.fleet false (2 # 10) 5 42) = true /\
  (forall train test,
     split Sample.rng Sample.fleet false (2 # 10) 5 42 = Ok (train, test) ->
     (forall e, ~ (In e (entities train) /\ In e (entities test))) /\
     (forall e, In e (entities Sample.fleet) <->
                In e (entities train) \/ In e (entities test))).
Proof.
  destruct (asset_split_partitions_entities Sample.rng Sample.fleet (2 # 10)
              5 42 (Sample_rng_wf 42)) as [Hok Hpart].
  split; [| exact Hpart].
  apply Hok; [discriminate |].
  apply valid_fraction_check. vm_compute. reflexivity.
Defined.

(** C4. The split fails with [InvalidConfiguration] for every test fraction
    outside (0, 1) and, the fraction being valid, with [EmptyDataset] for a
    dataset with zero rows; either way no train/test pair is produced. *)
Theorem split_rejects_bad_input (rng : Z -> RandomState) (data : DataFrame)
    (time_split : bool) (test_size : Q) (lookback seed : Z) :
  (~ valid_fraction test_size ->
   split rng data time_split test_size lookback seed
     = Raise InvalidConfiguration) /\
  (valid_fraction test_size -> data = [] ->
   split rng data time_split test_size lookback seed = Raise EmptyDataset) /\
  (~ valid_fraction test_size \/ data = [] ->
   forall train test,
     split rng data time_split test_size lookback seed <> Ok (train, test)).
Proof.
  assert (Hbad : ~ valid_fraction test_size ->
                 split rng data time_split test_size lookback seed
                   = Raise InvalidConfiguration).
  { intros Hf. unfold split, time_based_split, asset_based_split.
    destruct time_split; rewrite train_test_split_invalid by exact Hf;
      reflexivity. }
  assert (Hempty : valid_fraction test_size -> data = [] ->
                   split rng data time_split test_size lookback seed
                     = Raise EmptyDataset).
  { intros Hf Hd. subst data.
    unfold split, time_based_split, asset_based_split. simpl.
    destruct time_split; rewrite train_test_split_empty by exact Hf;
      reflexivity. }
  split; [exact Hbad | split; [exact Hempty |]].
  intros Hcase train test Hok.
  assert (Hdec : valid_fraction test_size \/ ~ valid_fraction test_size).
  { destruct (np_lt (Finite 0) (float64 test_size)
              && np_lt (float64 test_size) (Finite 1)) eqn:Hchk.
    - left. apply valid_fraction_check. exact Hchk.
    - right. intros Hf. apply valid_fraction_check in Hf. congruence. }
  destruct Hdec as [Hf | Hf].
  - destruct Hcase as [Hnf | Hd]; [contradiction |].
    rewrite (Hempty Hf Hd) in Hok. discriminate.
  - rewrite (Hbad Hf) in Hok. discriminate.
Qed.

Lemma split_rejects_bad_input_witness :
  split Sample.rng Sample.fleet true (3 # 2) 5 42 = Raise InvalidConfiguration /\
  split Sample.rng Sample.fleet false 0 5 42 = Raise InvalidConfiguration /\
  split Sample.rng [] true (2 # 10) 5 42 = Raise EmptyDataset /\
  split Sample.rng [] false (2 # 10) 5 42 = Raise EmptyDataset.
Proof.
  split; [| split; [| split]].
  - apply (split_rejects_bad_input Sample.rng Sample.fleet true (3 # 2) 5 42).
    intros H. apply valid_fraction_check in H. vm_compute in H.
    discriminate H.
  - apply (split_rejects_bad_input Sample.rng Sample.fleet false 0 5 42).
    intros H. apply valid_fraction_check in H. vm_compute in H.
    discriminate H.
  - apply (split_rejects_bad_input Sample.rng [] true (2 # 10) 5 42);
      [apply valid_fraction_check; vm_compute |]; reflexivity.
  - apply (split_rejects_bad_input Sample.rng [] false (2 # 10) 5 42);
      [apply valid_fraction_check; vm_compute |]; reflexivity.
Defined.

(** ** Reproducibility *)

Lemma train_test_split_same_generator (rng rng' : Z -> RandomState)
    {A : Type} (arrays : list A) (f : Q) (seed : Z) :
  rng seed = rng' seed ->
  train_test_split rng arrays f (Some seed)
  = train_test_split rng' arrays f (Some seed).
Proof.
  intros Hrng. unfold train_test_split. rewrite Hrng. reflexivity.
Qed.

Lemma train_test_split_unshuffled (rng rng' : Z -> RandomState)
    {A : Type} (arrays : list A) (f : Q) :
  train_test_split rng arrays f None = train_test_split rng' arrays f None.
Proof. reflexivity. Qed.

Lemma valid_fraction_compat (f g : Q) :
  (f == g)%Q -> valid_fraction g -> valid_fraction f.
Proof.
  unfold valid_fraction. intros Heq. rewrite (float64_compat f g Heq). auto.
Qed.

Lemma ceil_fraction_compat (f g : Q) (n : nat) :
  (f == g)%Q -> ceil_fraction f n = ceil_fraction g n.
Proof.
  intros Heq. unfold ceil_fraction. rewrite (float64_compat f g Heq).
  reflexivity.
Qed.

Lemma unique_entities_isin (data : DataFrame) (chosen : list Z) :
  NoDup chosen ->
  (forall e, In e chosen -> In e (entities data)) ->
  length (unique (entities (filter (fun r => isin (machineID r) chosen) data)))
  = length chosen.
Proof.
  intros Hnd Hsub. apply Permutation_length.
  apply NoDup_Permutation; [apply NoDup_unique | exact Hnd |].
  intros e. rewrite In_unique, entities_isin. split; [tauto |].
  intros He. split; [apply Hsub |]; exact He.
Qed.

(** C8. The asset ID-based split depends on the generator only through the
    generator seeded with [seed]: two runs on the same dataset with the same
    seed and test fraction give the same train/test pair.  With 10 entities
    and a test fraction of 0.2, exactly 2 entities land in test (and 8 in
    train).  The time-based split uses neither the generator nor the seed. *)
Theorem split_reproducible :
  (forall rng rng' data test_size lookback seed,
     rng seed = rng' seed ->
     split rng data false test_size lookback seed
     = split rng' data false test_size lookback seed) /\
  (forall rng data test_size lookback seed,
     RandomState_wf (rng seed) ->
     (test_size == 2 # 10)%Q ->
     length (unique (entities data)) = 10%nat ->
     exists train test,
       split rng data false test_size lookback seed = Ok (train, test) /\
       length (unique (entities test)) = 2%nat /\
       length (unique (entities train)) = 8%nat) /\
  (forall rng rng' data test_size lookback seed seed',
     split rng data true test_size lookback seed
     = split rng' data true test_size lookback seed').
Proof.
  split; [| split].
  - intros rng rng' data f lookback seed Hrng.
    unfold split, asset_based_split.
    rewrite (train_test_split_same_generator rng rng' _ f seed Hrng).
    reflexivity.
  - intros rng data f lookback seed Hwf Hf Hten.
    assert (Hvalid : valid_fraction f).
    { apply (valid_fraction_compat f (2 # 10) Hf).
      apply valid_fraction_check. vm_compute. reflexivity. }
    destruct (split rng data false f lookback seed)
      as [[train test] | err] eqn:Hsplit.
    + exists train, test. split; [reflexivity |].
      apply split_asset_based_inv in Hsplit.
      destruct Hsplit as [train_assets [test_assets [Hs [Htrain Htest]]]].
      subst train test.
      destruct (drawn_assets _ _ _ _ _ _ Hwf Hs) as [Hnd Hall].
      destruct (NoDup_app_parts _ _ Hnd) as [Hnd_test Hnd_train].
      apply train_test_split_shuffled in Hs; [| exact Hwf].
      destruct Hs as [Hperm Hlen].
      assert (Hu : length (unique (map machineID data)) = 10%nat) by exact Hten.
      rewrite Hu in Hlen.
      rewrite (ceil_fraction_compat f (2 # 10) 10 Hf) in Hlen.
      replace (Nat.min (ceil_fraction (2 # 10) 10) 10) with 2%nat in Hlen
        by (vm_compute; reflexivity).
      apply Permutation_length in Hperm.
      rewrite length_app, Hu, Hlen in Hperm.
      split.
      * rewrite (unique_entities_isin data test_assets Hnd_test).
        -- exact Hlen.
        -- intros e He. apply Hall. left. exact He.
      * rewrite (unique_entities_isin data train_assets Hnd_train).
        -- lia.
        -- intros e He. apply Hall. right. exact He.
    + exfalso.
      assert (Hne : data <> []).
      { intros Hd. subst data. discriminate Hten. }
      pose proof (split_asset_based_succeeds rng data f lookback seed
                    Hne Hvalid) as Hok.
      rewrite Hsplit in Hok. discriminate Hok.
  - intros rng rng' data f lookback seed seed'. reflexivity.
Qed.

Lemma split_reproducible_witness :
  split Sample.rng Sample.ten_machines false (2 # 10) 5 42
  = split Sample.rng' Sample.ten_machines false (2 # 10) 5 42 /\
  (exists train test,
     split Sample.rng Sample.ten_machines false (2 # 10) 5 42
       = Ok (train, test) /\
     length (unique (entities test)) = 2%nat /\
     length (unique (entities train)) = 8%nat) /\
  split Sample.rng Sample.fleet true (2 # 10) 5 42
  = split Sample.rng' Sample.fleet true (2 # 10) 5 7.
Proof.
  destruct split_reproducible as [Hseed [Hten Htime]].
  split; [| split].
  - apply Hseed. reflexivity.
  - apply Hten; [apply Sample_rng_wf | reflexivity | reflexivity].
  - apply Htime.
Defined.

(** ** Feature/label separation *)

Lemma drop_excludes (labels : list string) (row : list (string * cell))
    (name : string) :
  In name labels -> ~ In name (map fst (drop labels row)).
Proof.
  intros Hlabel Hin. apply in_map_iff in Hin.
  destruct Hin as [[n v] [Hfst Hin]]. simpl in Hfst. subst n.
  unfold drop in Hin. apply filter_In in Hin. destruct Hin as [_ Hkeep].
  simpl in Hkeep. apply negb_true_iff in Hkeep.
  assert (Hex : existsb (String.eqb name) labels = true).
  { apply existsb_exists. exists name. split; [exact Hlabel |].
    apply String.eqb_refl. }
  congruence.
Qed.

Lemma drop_keeps (labels : list string) (row : list (string * cell))
    (c : string * cell) :
  In c row -> ~ In (fst c) labels -> In c (drop labels row).
Proof.
  intros Hin Hnot. unfold drop. apply filter_In. split; [exact Hin |].
  apply negb_true_iff. destruct (existsb (String.eqb (fst c)) labels) eqn:Hex.
  - exfalso. apply existsb_exists in Hex. destruct Hex as [l [Hl Heq]].
    apply String.eqb_eq in Heq. subst l. contradiction.
  - reflexivity.
Qed.

(** C10. The feature table returned by [xy_split] has one row per input row
    and none of the columns cycle, immediate_failure, rul, sequenceID,
    machineID, while every other column of the row is still there; the
    label vector is the immediate_failure column of the input, in row
    order. *)
Theorem xy_split_separates (data : DataFrame) :
  Forall2 (fun r row =>
             (forall name,
                In name ["cycle"; "immediate_failure"; "rul"; "sequenceID";
                         "machineID"]%string ->
                ~ In name (map fst row)) /\
             (forall c, In c (columns r) ->
                ~ In (fst c) ["cycle"; "immediate_failure"; "rul";
                              "sequenceID"; "machineID"]%string ->
                In c row))
          data (fst (xy_split data)) /\
  Forall2 (fun r y => column "immediate_failure" (columns r) = Some (Str y))
          data (snd (xy_split data)) /\
  snd (xy_split data) = map immediate_failure data.
Proof.
  unfold xy_split. cbn [fst snd]. split; [| split].
  - induction data as [| r data IH]; [constructor |].
    rewrite map_cons. constructor; [| exact IH].
    split.
    + intros name Hname. apply drop_excludes. exact Hname.
    + intros c Hin Hnot. exact (drop_keeps _ _ c Hin Hnot).
  - induction data as [| r data IH]; [constructor |].
    rewrite map_cons. constructor; [reflexivity | exact IH].
  - reflexivity.
Qed.

Lemma xy_split_separates_witness :
  xy_split [Sample.row 9 2 4 "F1" 10]
  = ([[("s1"%string, Float 10)]], ["F1"%string]) /\
  Forall2 (fun r row =>
             (forall name,
                In name ["cycle"; "immediate_failure"; "rul"; "sequenceID";
                         "machineID"]%string ->
                ~ In name (map fst row)) /\
             (forall c, In c (columns r) ->
                ~ In (fst c) ["cycle"; "immediate_failure"; "rul";
                              "sequenceID"; "machineID"]%string ->
                In c row))
          Sample.fleet (fst (xy_split Sample.fleet)).
Proof.
  split; [reflexivity |]. apply (xy_split_separates Sample.fleet).
Defined.
(** ** Class counts *)

Lemma Counter_snoc (Y : list label) (y : label) :
  Counter (Y ++ [y]) = incr y (Counter Y).
Proof. unfold Counter. rewrite fold_left_app. reflexivity. Qed.

Lemma count_of_incr (l y : label) (counts : list (label * Z)) :
  count_of l (incr y counts) =
  if String.eqb y l then count_of l counts + 1 else count_of l counts.
Proof.
  induction counts as [| [l' n] rest IH]; simpl.
  - destruct (String.eqb y l); reflexivity.
  - destruct (String.eqb l' y) eqn:Hy; simpl.
    + apply String.eqb_eq in Hy. subst l'.
      destruct (String.eqb y l); reflexivity.
    + destruct (String.eqb l' l) eqn:Hl.
      * apply String.eqb_eq in Hl. subst l'.
        rewrite String.eqb_sym, Hy. reflexivity.
      * exact IH.
Qed.

Lemma count_of_Counter (Y : list label) (l : label) :
  count_of l (Counter Y) = occurrences Y l.
Proof.
  unfold occurrences. induction Y as [| y Y IH] using rev_ind.
  - reflexivity.
  - rewrite Counter_snoc, count_of_incr, count_occ_app, IH. simpl.
    destruct (string_dec y l) as [Heq | Hne].
    + apply String.eqb_eq in Heq. rewrite Heq. lia.
    + apply String.eqb_neq in Hne. rewrite Hne. lia.
Qed.

Lemma incr_keys (y l : label) (counts : list (label * Z)) :
  In l (map fst (incr y counts)) <-> l = y \/ In l (map fst counts).
Proof.
  induction counts as [| [l' n] rest IH]; simpl.
  - intuition congruence.
  - destruct (String.eqb l' y) eqn:Hy; simpl.
    + apply String.eqb_eq in Hy. subst l'. intuition congruence.
    + rewrite IH. tauto.
Qed.

Lemma incr_NoDup (y : label) (counts : list (label * Z)) :
  NoDup (map fst counts) -> NoDup (map fst (incr y counts)).
Proof.
  induction counts as [| [l' n] rest IH]; simpl; intros Hnd.
  - constructor; [intros [] | constructor].
  - inversion Hnd as [| ? ? Hnotin Hnd']; subst.
    destruct (String.eqb l' y) eqn:Hy; simpl.
    + constructor; assumption.
    + constructor; [| apply IH; exact Hnd'].
      rewrite incr_keys. apply String.eqb_neq in Hy.
      intros [Heq | Hin]; [congruence | contradiction].
Qed.

Lemma incr_positive (y : label) (counts : list (label * Z)) :
  Forall (fun c => 0 < snd c) counts ->
  Forall (fun c => 0 < snd c) (incr y counts).
Proof.
  induction counts as [| [l' n] rest IH]; simpl; intros Hpos.
  - constructor; [simpl; lia | constructor].
  - inversion Hpos; subst.
    destruct (String.eqb l' y); constructor; simpl in *; auto; lia.
Qed.

Lemma Counter_NoDup (Y : list label) : NoDup (map fst (Counter Y)).
Proof.
  induction Y as [| y Y IH] using rev_ind.
  - constructor.
  - rewrite Counter_snoc. apply incr_NoDup. exact IH.
Qed.

Lemma Counter_positive (Y : list label) :
  Forall (fun c => 0 < snd c) (Counter Y).
Proof.
  induction Y as [| y Y IH] using rev_ind.
  - constructor.
  - rewrite Counter_snoc. apply incr_positive. exact IH.
Qed.

Lemma count_of_In (l : label) (n : Z) (counts : list (label * Z)) :
  NoDup (map fst counts) -> In (l, n) counts -> count_of l counts = n.
Proof.
  induction counts as [| [l' n'] rest IH]; simpl; intros Hnd Hin.
  - contradiction.
  - inversion Hnd as [| ? ? Hnotin Hnd']; subst.
    destruct Hin as [Heq | Hin].
    + inversion Heq; subst. rewrite String.eqb_refl. reflexivity.
    + destruct (String.eqb l' l) eqn:Hl.
      * apply String.eqb_eq in Hl. subst l'. exfalso. apply Hnotin.
        apply in_map_iff. exists (l, n). auto.
      * apply IH; assumption.
Qed.

Lemma In_count_of (l : label) (counts : list (label * Z)) :
  count_of l counts <> 0 -> In (l, count_of l counts) counts.
Proof.
  induction counts as [| [l' n'] rest IH]; simpl; intros Hnz.
  - contradiction.
  - destruct (String.eqb l' l) eqn:Hl.
    + apply String.eqb_eq in Hl. subst l'. left. reflexivity.
    + right. apply IH. exact Hnz.
Qed.

(** The entries of a Counter are the labels that occur, each with its
    number of occurrences. *)
Lemma Counter_In (Y : list label) (l : label) (n : Z) :
  In (l, n) (Counter Y) <-> n = occurrences Y l /\ 0 < n.
Proof.
  split.
  - intros Hin. split.
    + rewrite <- count_of_Counter. symmetry.
      apply count_of_In; [apply Counter_NoDup | exact Hin].
    + pose proof (Counter_positive Y) as Hpos.
      rewrite Forall_forall in Hpos. exact (Hpos _ Hin).
  - intros [Hn Hpos]. subst n. rewrite <- count_of_Counter in *.
    apply In_count_of. lia.
Qed.

Lemma incr_sum (y : label) (counts : list (label * Z)) :
  sum (map snd (incr y counts)) = sum (map snd counts) + 1.
Proof.
  unfold sum. induction counts as [| [l' n] rest IH]; simpl.
  - reflexivity.
  - destruct (String.eqb l' y); simpl; [lia |]. rewrite IH. lia.
Qed.

Lemma Counter_sum (Y : list label) :
  sum (map snd (Counter Y)) = Z.of_nat (length Y).
Proof.
  induction Y as [| y Y IH] using rev_ind.
  - reflexivity.
  - rewrite Counter_snoc, incr_sum, IH, length_app. simpl. lia.
Qed.

Lemma sum_Permutation (l l' : list Z) : Permutation l l' -> sum l = sum l'.
Proof.
  unfold sum. intros Hp. induction Hp; simpl; lia.
Qed.

Lemma sum_app (l l' : list Z) : sum (l ++ l') = sum l + sum l'.
Proof.
  unfold sum. induction l as [| x l IH]; simpl; lia.
Qed.

(** ** most_common *)

Lemma insert_desc_Permutation (c : label * Z) (sorted : list (label * Z)) :
  Permutation (insert_desc c sorted) (c :: sorted).
Proof.
  induction sorted as [| c' rest IH]; simpl.
  - reflexivity.
  - destruct (snd c' <? snd c).
    + reflexivity.
    + rewrite IH. apply perm_swap.
Qed.

Lemma insert_desc_sorted (c : label * Z) (sorted : list (label * Z)) :
  StronglySorted desc sorted -> StronglySorted desc (insert_desc c sorted).
Proof.
  induction sorted as [| c' rest IH]; simpl; intros Hs.
  - constructor; constructor.
  - inversion Hs as [| ? ? Hrest Hall]; subst.
    destruct (snd c' <? snd c) eqn:Hlt.
    + apply Z.ltb_lt in Hlt. constructor; [exact Hs |].
      constructor; [unfold desc; lia |].
      rewrite Forall_forall in *. intros x Hx.
      specialize (Hall x Hx). unfold desc in *. lia.
    + apply Z.ltb_ge in Hlt. constructor; [apply IH; exact Hrest |].
      apply (Permutation_Forall (Permutation_sym (insert_desc_Permutation c rest))).
      constructor; [exact Hlt | exact Hall].
Qed.

Lemma most_common_acc (counts acc : list (label * Z)) :
  StronglySorted desc acc ->
  Permutation (fold_left (fun s c => insert_desc c s) counts acc) (counts ++ acc)
  /\ StronglySorted desc (fold_left (fun s c => insert_desc c s) counts acc).
Proof.
  revert acc. induction counts as [| c counts IH]; simpl; intros acc Hs.
  - split; [reflexivity | exact Hs].
  - destruct (IH (insert_desc c acc) (insert_desc_sorted c acc Hs)) as [Hp Hs'].
    split; [| exact Hs'].
    rewrite Hp. rewrite insert_desc_Permutation.
    symmetry. apply Permutation_middle.
Qed.

Lemma most_common_Permutation (counts : list (label * Z)) :
  Permutation (most_common counts) counts.
Proof.
  destruct (most_common_acc counts [] (SSorted_nil desc)) as [Hp _].
  unfold most_common. rewrite Hp, app_nil_r. reflexivity.
Qed.

Lemma most_common_sorted (counts : list (label * Z)) :
  StronglySorted desc (most_common counts).
Proof.
  destruct (most_common_acc counts [] (SSorted_nil desc)) as [_ Hs].
  exact Hs.
Qed.

(** A descending list is determined by its entries when no two counts of the
    reference list are equal. *)
Lemma sorted_Permutation_eq (l d : list (label * Z)) :
  StronglySorted desc l ->
  StronglySorted (fun a b => snd b < snd a) d ->
  Permutation l d -> l = d.
Proof.
  revert l. induction d as [| x d IH]; intros l Hl Hd Hp.
  - apply Permutation_sym, Permutation_nil in Hp. exact Hp.
  - destruct l as [| y l].
    + apply Permutation_nil in Hp. discriminate Hp.
    + inversion Hl as [| ? ? Hl' Hall]; subst.
      inversion Hd as [| ? ? Hd' Hdall]; subst.
      assert (Hyx : y = x).
      { assert (Hy : In y (x :: d)).
        { apply (Permutation_in _ Hp). left. reflexivity. }
        destruct Hy as [Hy | Hy]; [symmetry; exact Hy |].
        exfalso.
        assert (Hx : In x (y :: l)).
        { apply (Permutation_in _ (Permutation_sym Hp)). left. reflexivity. }
        rewrite Forall_forall in Hall, Hdall.
        specialize (Hdall y Hy). simpl in Hdall.
        destruct Hx as [Hx | Hx].
        - subst. lia.
        - specialize (Hall x Hx). unfold desc in Hall. lia. }
      subst y. f_equal. apply IH; [exact Hl' | exact Hd' |].
      apply (Permutation_cons_inv Hp).
Qed.

(** ** The balancing cell *)

Lemma np_le_1_not_gt_1 (x : np_float) : np_le_1 x = true -> np_gt_1 x = false.
Proof.
  destruct x as [q | | |]; simpl; try discriminate; try reflexivity.
  unfold Qltb. intros H. rewrite H. reflexivity.
Qed.

Lemma ratio_for_None (f : Q) (Y : list label) :
  np_gt_1 (scale f Y) = false -> ratio_for f Y = Ok None.
Proof. unfold ratio_for. intros H. rewrite H. reflexivity. Qed.

(** The cell has no path of its own that returns its input: without a ratio
    its result is the sampler's for [ratio=None]. *)
Lemma balance_without_ratio (rng : Z -> RandomState) (k : nat) (f : Q)
    (seed : Z) (X : list vec) (Y : list label) :
  ratio_for f Y = Ok None ->
  balance rng k f seed X Y = fit_sample rng k (mkSMOTE None seed) X Y.
Proof. intros H. unfold balance. rewrite H. reflexivity. Qed.

Lemma balance_with_ratio (rng : Z -> RandomState) (k : nat) (f : Q)
    (seed : Z) (X : list vec) (Y : list label) (ratio : list (label * Z)) :
  ratio_for f Y = Ok (Some ratio) ->
  balance rng k f seed X Y = fit_sample rng k (mkSMOTE (Some ratio) seed) X Y.
Proof. intros H. unfold balance. rewrite H. reflexivity. Qed.

(** The only exception of the cell's own arithmetic is outside the spec's
    taxonomy. *)
Lemma targets_error (s : np_float) (classes : list (label * Z)) (e : error) :
  targets s classes = Raise e -> e = Unclassified.
Proof.
  induction classes as [| c rest IH]; simpl; [discriminate |].
  destruct (np_times (float64 (inject_Z (snd c))) s) as [q | | |]; simpl;
    try (intros H; congruence).
  destruct (targets s rest) as [ts | e']; simpl; [discriminate |].
  intros H. injection H as <-. apply IH. reflexivity.
Qed.

Lemma ratio_for_error (f : Q) (Y : list label) (e : error) :
  ratio_for f Y = Raise e -> e = Unclassified.
Proof.
  unfold ratio_for. destruct (np_gt_1 (scale f Y)); [| discriminate].
  destruct (targets (scale f Y) (minority_classes Y)) as [ts | e'] eqn:Ht;
    simpl; [discriminate |].
  intros H. injection H as <-. exact (targets_error _ _ _ Ht).
Qed.

(** A ratio names the minority classes, in order. *)
Lemma targets_keys (s : np_float) (classes ts : list (label * Z)) :
  targets s classes = Ok ts -> map fst ts = map fst classes.
Proof.
  revert ts. induction classes as [| c rest IH]; simpl; intros ts H.
  - injection H as <-. reflexivity.
  - destruct (int (np_times (float64 (inject_Z (snd c))) s)) as [n | e];
      simpl in H; [| discriminate].
    destruct (targets s rest) as [ts' | e]; simpl in H; [| discriminate].
    injection H as <-. simpl. f_equal. apply IH. reflexivity.
Qed.

Lemma ratio_for_keys (f : Q) (Y : list label) (ratio : list (label * Z)) :
  ratio_for f Y = Ok (Some ratio) ->
  np_gt_1 (scale f Y) = true /\
  targets (scale f Y) (minority_classes Y) = Ok ratio /\
  map fst ratio = map fst (minority_classes Y).
Proof.
  unfold ratio_for. destruct (np_gt_1 (scale f Y)); [| discriminate].
  destruct (targets (scale f Y) (minority_classes Y)) as [ts | e] eqn:Ht;
    simpl; [| discriminate].
  intros H. injection H as <-.
  split; [reflexivity |]. split; [reflexivity |].
  exact (targets_keys _ _ _ Ht).
Qed.
(** ** Synthetic samples *)













(** ** A scale of at most 1 *)

(** C1, at an input with a scale of at most 1 (seven rows of the majority
    label, six of a minority label, a target fraction of 0.1): the
    balancing cell builds no ratio and hands its input to the sampler with
    [ratio=None].  The cell has no path that returns the input itself;
    whether the rows come back unchanged is left to what the sampler does
    without a ratio. *)
Theorem balance_low_scale_calls_sampler :
  np_le_1 (scale (1 # 10) Sample.Y13) = true /\
  ratio_for (1 # 10) Sample.Y13 = Ok None /\
  balance Sample.rng 5 (1 # 10) 42 Sample.X13 Sample.Y13
  = fit_sample Sample.rng 5 (mkSMOTE None 42) Sample.X13 Sample.Y13.
Proof.
  assert (Hle : np_le_1 (scale (1 # 10) Sample.Y13) = true)
    by (vm_compute; reflexivity).
  pose proof (ratio_for_None _ _ (np_le_1_not_gt_1 _ Hle)) as Hnone.
  split; [exact Hle |]. split; [exact Hnone |].
  apply balance_without_ratio. exact Hnone.
Qed.
(** ** Label counts of the balanced set *)

Lemma count_of_Permutation (l : label) (c d : list (label * Z)) :
  NoDup (map fst c) -> Permutation c d -> count_of l c = count_of l d.
Proof.
  intros Hc Hp.
  assert (Hd : NoDup (map fst d)).
  { apply (Permutation_NoDup (Permutation_map fst Hp)). exact Hc. }
  destruct (Z.eq_dec (count_of l c) 0) as [Hz | Hnz].
  - destruct (Z.eq_dec (count_of l d) 0) as [Hz' | Hnz']; [congruence |].
    apply In_count_of in Hnz'.
    apply (Permutation_in _ (Permutation_sym Hp)) in Hnz'.
    apply count_of_In; assumption.
  - apply In_count_of in Hnz. apply (Permutation_in _ Hp) in Hnz.
    symmetry. apply count_of_In; assumption.
Qed.

Lemma label_counts_occ (Y : list label) (counts : list (label * Z))
    (l : label) :
  label_counts Y counts -> occurrences Y l = count_of l counts.
Proof.
  intros Hp. rewrite <- count_of_Counter.
  apply count_of_Permutation; [apply Counter_NoDup | exact Hp].
Qed.

Lemma label_counts_intro (Y : list label) (counts : list (label * Z)) :
  NoDup (map fst counts) ->
  Forall (fun c => 0 < snd c) counts ->
  (forall l, occurrences Y l = count_of l counts) ->
  label_counts Y counts.
Proof.
  intros Hnd Hpos Hocc. unfold label_counts.
  apply NoDup_Permutation.
  - apply (NoDup_map_inv fst). apply Counter_NoDup.
  - apply (NoDup_map_inv fst). exact Hnd.
  - intros [l n]. rewrite Counter_In, Hocc. split.
    + intros [Hn Hlt]. subst n. apply In_count_of. lia.
    + intros Hin. split.
      * symmetry. apply count_of_In; assumption.
      * rewrite Forall_forall in Hpos. exact (Hpos _ Hin).
Qed.

Lemma label_counts_length (Y : list label) (counts : list (label * Z)) :
  label_counts Y counts -> Z.of_nat (length Y) = sum (map snd counts).
Proof.
  intros Hp. rewrite <- Counter_sum.
  apply sum_Permutation. apply Permutation_map. exact Hp.
Qed.

Lemma occurrences_app (Y Y2 : list label) (l : label) :
  occurrences (Y ++ Y2) l = occurrences Y l + occurrences Y2 l.
Proof. unfold occurrences. rewrite count_occ_app. lia. Qed.

Lemma occurrences_repeat (y l : label) (n : nat) :
  occurrences (repeat y n) l = if String.eqb y l then Z.of_nat n else 0.
Proof.
  unfold occurrences. destruct (String.eqb_spec y l) as [Heq | Hne].
  - rewrite count_occ_repeat_eq; [reflexivity | symmetry; exact Heq].
  - rewrite count_occ_repeat_neq; [reflexivity | congruence].
Qed.

Lemma combine_app {A B : Type} (l1 l2 : list A) (m1 m2 : list B) :
  length l1 = length m1 ->
  combine (l1 ++ l2) (m1 ++ m2) = combine l1 m1 ++ combine l2 m2.
Proof.
  revert m1. induction l1 as [| a l1 IH]; intros [| b m1] Hlen;
    simpl in *; try discriminate.
  - reflexivity.
  - f_equal. apply IH. lia.
Qed.

Lemma members_app (l : label) (X X2 : list vec) (Y Y2 : list label) :
  length X = length Y ->
  members l (X ++ X2) (Y ++ Y2) = members l X Y ++ members l X2 Y2.
Proof.
  intros Hlen. unfold members.
  rewrite combine_app by exact Hlen. rewrite filter_app, map_app. reflexivity.
Qed.

Lemma members_absent (l : label) (X : list vec) (Y : list label) :
  ~ In l Y -> members l X Y = [].
Proof.
  unfold members. revert Y. induction X as [| x X IH]; intros [| y Y] Hnot;
    simpl; try reflexivity.
  destruct (String.eqb_spec y l) as [Heq | Hne].
  - exfalso. apply Hnot. left. exact Heq.
  - apply IH. intros Hin. apply Hnot. right. exact Hin.
Qed.

Lemma length_members (l : label) (X : list vec) (Y : list label) :
  length X = length Y ->
  Z.of_nat (length (members l X Y)) = occurrences Y l.
Proof.
  unfold occurrences. intros Hlen. f_equal.
  unfold members. revert Y Hlen.
  induction X as [| x X IH]; intros [| y Y] Hlen;
    simpl in *; try discriminate; try reflexivity.
  destruct (String.eqb_spec y l) as [Heq | Hne].
  - destruct (string_dec y l); [| contradiction].
    simpl. f_equal. apply IH. lia.
  - destruct (string_dec y l); [contradiction |]. apply IH. lia.
Qed.

Section Scenario.

Local Open Scope string_scope.

Lemma scenario_most_common (Y : list label) :
  label_counts Y [("", 100); ("F1", 5); ("F2", 3)] ->
  most_common (Counter Y) = [("", 100); ("F1", 5); ("F2", 3)].
Proof.
  intros Hp. apply sorted_Permutation_eq.
  - apply most_common_sorted.
  - repeat constructor.
  - rewrite most_common_Permutation. exact Hp.
Qed.

(** C5. For label counts 100 / 5 / 3 and a target minority fraction of 0.2
    the balancing cell computes a minority total of 8, a scale of 2.7 (the
    float) and the targets F1 = 13, F2 = 8; its result has the label counts
    100 / 13 / 8, and the rows of the majority label are those of the
    input. *)
Theorem balance_scenario (rng : Z -> RandomState) (k : nat) (seed : Z)
    (X : list vec) (Y : list label) :
  length X = length Y ->
  label_counts Y [("", 100); ("F1", 5); ("F2", 3)] ->
  minority_classes_size Y = 8 /\
  (exists q, scale (2 # 10) Y = Finite q /\
             Finite q = float64 (27 # 10) /\
             (q == 3039929748475085 # 1125899906842624)%Q) /\
  ratio_for (2 # 10) Y = Ok (Some [("F1", 13); ("F2", 8)]) /\
  exists X' Y',
    balance rng k (2 # 10) seed X Y = Ok (X', Y') /\
    label_counts Y' [("", 100); ("F1", 13); ("F2", 8)] /\
    members "" X' Y' = members "" X Y.
Proof.
  intros Hlen Hcounts.
  pose proof (scenario_most_common Y Hcounts) as Hmc.
  assert (Hmin : minority_classes Y = [("F1", 5); ("F2", 3)]).
  { unfold minority_classes. rewrite Hmc. reflexivity. }
  assert (Hsize : minority_classes_size Y = 8).
  { unfold minority_classes_size. rewrite Hmin. reflexivity. }
  assert (HN : Z.of_nat (length Y) = 108).
  { rewrite (label_counts_length Y _ Hcounts). reflexivity. }
  assert (Hscale : scale (2 # 10) Y = float64 (27 # 10)).
  { unfold scale, desired_minority_classes_size. rewrite Hsize, HN.
    vm_compute. reflexivity. }
  assert (Hratio : ratio_for (2 # 10) Y = Ok (Some [("F1", 13); ("F2", 8)])).
  { unfold ratio_for. rewrite Hscale, Hmin. vm_compute. reflexivity. }
  split; [exact Hsize |].
  split.
  { rewrite Hscale. eexists. split; [vm_compute; reflexivity |].
    split; [vm_compute; reflexivity | reflexivity]. }
  split; [exact Hratio |].
  assert (H1 : length (members "F1" X Y) = 5%nat).
  { apply Nat2Z.inj.
    rewrite (length_members _ _ _ Hlen), (label_counts_occ _ _ _ Hcounts).
    reflexivity. }
  assert (H2 : length (members "F2" X Y) = 3%nat).
  { apply Nat2Z.inj.
    rewrite (length_members _ _ _ Hlen), (label_counts_occ _ _ _ Hcounts).
    reflexivity. }
  assert (Hclasses : length (Counter Y) = 3%nat).
  { exact (Permutation_length Hcounts). }
  rewrite (balance_with_ratio _ _ _ _ _ _ _ Hratio).
  unfold fit_sample. rewrite Hclasses. cbn [Nat.ltb Nat.leb ratio random_state].
  cbn [oversample]. rewrite H1, H2. cbn.
  eexists. eexists. split; [reflexivity |]. split.
  - apply label_counts_intro.
    + repeat constructor; simpl; intuition discriminate.
    + repeat constructor.
    + intros l. rewrite !occurrences_app, !occurrences_repeat.
      rewrite (label_counts_occ _ _ _ Hcounts). cbn [count_of].
      destruct (String.eqb_spec "" l) as [H0 | H0];
        [subst l; reflexivity |].
      destruct (String.eqb_spec "F1" l) as [HF1 | HF1];
        [subst l; reflexivity |].
      destruct (String.eqb_spec "F2" l) as [HF2 | HF2];
        [subst l; reflexivity |].
      reflexivity.
  - rewrite members_app by exact Hlen.
    rewrite (members_absent "" _ (repeat "F1" 8 ++ repeat "F2" 5 ++ [])).
    + apply app_nil_r.
    + intros Hin. apply in_app_or in Hin. destruct Hin as [Hin | Hin].
      * apply repeat_spec in Hin. discriminate Hin.
      * apply in_app_or in Hin. destruct Hin as [Hin | []].
        apply repeat_spec in Hin. discriminate Hin.
Qed.

End Scenario.

Lemma balance_scenario_witness :
  minority_classes_size Sample.Y_scenario = 8 /\
  (exists q, scale (2 # 10) Sample.Y_scenario = Finite q /\
             Finite q = float64 (27 # 10) /\
             (q == 3039929748475085 # 1125899906842624)%Q) /\
  ratio_for (2 # 10) Sample.Y_scenario
    = Ok (Some [("F1"%string, 13); ("F2"%string, 8)]) /\
  exists X' Y',
    balance Sample.rng 5 (2 # 10) 42
      Sample.X_scenario Sample.Y_scenario = Ok (X', Y') /\
    label_counts Y' [(""%string, 100); ("F1"%string, 13); ("F2"%string, 8)] /\
    members ""%string X' Y'
      = members ""%string Sample.X_scenario Sample.Y_scenario.
Proof.
  apply (balance_scenario Sample.rng 5 42
           Sample.X_scenario Sample.Y_scenario).
  - reflexivity.
  - unfold label_counts. vm_compute. reflexivity.
Defined.
(** ** Failures of the balancing cell *)

Lemma oversample_error (k : nat) (rng : RandomState) (X : list vec)
    (Y : list label) (targets : list (label * Z)) (start : nat) (e : error) :
  oversample k rng X Y targets start = Raise e -> e = InsufficientNeighbors.
Proof.
  revert start. induction targets as [| [l target] rest IH]; simpl; intros start.
  - discriminate.
  - destruct ((0 <? Z.to_nat (target - Z.of_nat (length (members l X Y))))%nat
              && (length (members l X Y) <? 2)%nat).
    + intros H. inversion H. reflexivity.
    + destruct (oversample k rng X Y rest
                  (start + Z.to_nat (target - Z.of_nat (length (members l X Y)))))
        as [[X_rest Y_rest] | e'] eqn:Hrest; simpl.
      * discriminate.
      * intros H. inversion H; subst. exact (IH _ Hrest).
Qed.

(** A class that must grow and has no second member stops the sampler. *)
Lemma oversample_fails (k : nat) (rng : RandomState) (X : list vec)
    (Y : list label) (targets : list (label * Z)) (start : nat) :
  (exists t, In t targets /\
             (length (members (fst t) X Y) < 2)%nat /\
             Z.of_nat (length (members (fst t) X Y)) < snd t) ->
  oversample k rng X Y targets start = Raise InsufficientNeighbors.
Proof.
  revert start. induction targets as [| [l target] rest IH]; simpl; intros start.
  - intros [t [[] _]].
  - intros [t [Hin [Hlt Hgrow]]].
    destruct ((0 <? Z.to_nat (target - Z.of_nat (length (members l X Y))))%nat
              && (length (members l X Y) <? 2)%nat) eqn:Hchk; [reflexivity |].
    destruct Hin as [Heq | Hin].
    + subst t. cbn [fst snd] in Hlt, Hgrow. exfalso.
      apply andb_false_iff in Hchk. destruct Hchk as [Hn | Hlen].
      * apply Nat.ltb_ge in Hn. lia.
      * apply Nat.ltb_ge in Hlen. lia.
    + rewrite IH; [reflexivity |]. exists t. auto.
Qed.

Lemma minority_classes_count (Y : list label) (c : label * Z) :
  In c (minority_classes Y) -> snd c = occurrences Y (fst c).
Proof.
  unfold minority_classes. intros Hin. apply In_skipn in Hin.
  apply (Permutation_in _ (most_common_Permutation _)) in Hin.
  destruct c as [l n]. apply Counter_In in Hin. simpl. tauto.
Qed.

(** Labels with a minority class hold at least two classes. *)
Lemma minority_two_classes (Y : list label) (c : label * Z) :
  In c (minority_classes Y) -> (length (Counter Y) <? 2)%nat = false.
Proof.
  intros Hin. apply Nat.ltb_ge.
  rewrite <- (Permutation_length (most_common_Permutation (Counter Y))).
  unfold minority_classes in Hin.
  destruct (most_common (Counter Y)) as [| m [| c' rest]];
    simpl in *; try contradiction. lia.
Qed.

(** C9, as the code has it. The balancing cell does not check the target
    fraction: its own arithmetic never fails with [InvalidConfiguration],
    and once it has built a ratio neither does the sampler it calls.  With
    a ratio, the cell fails with [InsufficientNeighbors] for every input
    for which that ratio gives a minority class of fewer than 2 members a
    target above the class's count: a row would have to be interpolated
    without a neighbour. *)
Theorem balance_failures (rng : Z -> RandomState) (k : nat) (f : Q)
    (seed : Z) (X : list vec) (Y : list label) :
  ratio_for f Y <> Raise InvalidConfiguration /\
  forall targets, ratio_for f Y = Ok (Some targets) ->
    balance rng k f seed X Y <> Raise InvalidConfiguration /\
    (length X = length Y ->
     (exists c target,
        In c (minority_classes Y) /\ In (fst c, target) targets /\
        snd c < 2 /\ snd c < target) ->
     balance rng k f seed X Y = Raise InsufficientNeighbors).
Proof.
  split.
  - intros Hratio. apply ratio_for_error in Hratio. discriminate.
  - intros targets Hratio.
    rewrite (balance_with_ratio _ _ _ _ _ _ _ Hratio). split.
    + unfold fit_sample.
      destruct (length (Counter Y) <? 2)%nat; [discriminate |].
      cbn [ratio random_state].
      destruct (oversample k (rng seed) X Y targets 0)
        as [[X_new Y_new] | e] eqn:Hover; simpl; [discriminate |].
      apply oversample_error in Hover. subst e. discriminate.
    + intros Hlen [c [target [Hin [Ht [Hlt Hgrow]]]]].
      unfold fit_sample. rewrite (minority_two_classes Y c Hin).
      cbn [ratio random_state].
      rewrite oversample_fails; [reflexivity |].
      exists (fst c, target). split; [exact Ht |]. cbn [fst snd].
      rewrite (length_members _ _ _ Hlen).
      rewrite <- (minority_classes_count Y c Hin).
      split; [| exact Hgrow].
      apply Nat2Z.inj_lt. rewrite (length_members _ _ _ Hlen).
      rewrite <- (minority_classes_count Y c Hin). exact Hlt.
Qed.

Lemma balance_failures_witness :
  (ratio_for (9 # 10) Sample.Y3 = Ok (Some [("F1"%string, 2)]) /\
   balance Sample.rng 5 (9 # 10) 42 Sample.X3 Sample.Y3
     = Raise InsufficientNeighbors) /\
  (ratio_for (3 # 2) Sample.Y6 = Ok (Some [("F1"%string, 9)]) /\
   balance Sample.rng 5 (3 # 2) 42 Sample.X6 Sample.Y6
     <> Raise InvalidConfiguration).
Proof.
  assert (H3 : ratio_for (9 # 10) Sample.Y3 = Ok (Some [("F1"%string, 2)]))
    by (vm_compute; reflexivity).
  assert (H6 : ratio_for (3 # 2) Sample.Y6 = Ok (Some [("F1"%string, 9)]))
    by (vm_compute; reflexivity).
  split; (split; [assumption |]).
  - destruct (balance_failures Sample.rng 5 (9 # 10) 42 Sample.X3 Sample.Y3)
      as [_ H].
    destruct (H _ H3) as [_ Hfail]. apply Hfail; [reflexivity |].
    exists ("F1"%string, 1), 2. vm_compute. intuition.
  - destruct (balance_failures Sample.rng 5 (3 # 2) 42 Sample.X6 Sample.Y6)
      as [_ H].
    destruct (H _ H6) as [Hok _]. exact Hok.
Defined.

(** C9 as stated does not hold.  A target fraction of 1.5 is not rejected:
    thirteen rows come back as twenty-six.  And a minority class of a
    single member does not make the cell fail when its target is its
    count: with eight, six and one rows and a fraction of 0.6 the scale
    exceeds 1, the single-member class gets the target 1, and sixteen rows
    come back. *)
Lemma balance_failures_counterexample :
  (~ valid_fraction (3 # 2) /\
   ratio_for (3 # 2) Sample.Y13 = Ok (Some [("F1"%string, 19)]) /\
   exists X' Y',
     balance Sample.rng 5 (3 # 2) 42 Sample.X13 Sample.Y13 = Ok (X', Y') /\
     length Y' = 26%nat) /\
  (In ("F1"%string, 1) (minority_classes Sample.Y15) /\
   np_gt_1 (scale (6 # 10) Sample.Y15) = true /\
   ratio_for (6 # 10) Sample.Y15
     = Ok (Some [("F2"%string, 7); ("F1"%string, 1)]) /\
   exists X' Y',
     balance Sample.rng 5 (6 # 10) 42 Sample.X15 Sample.Y15 = Ok (X', Y') /\
     length Y' = 16%nat).
Proof.
  split.
  - split.
    { intros H. apply valid_fraction_check in H. vm_compute in H.
      discriminate H. }
    split; [vm_compute; reflexivity |].
    eexists. eexists. split; [vm_compute; reflexivity | reflexivity].
  - split; [vm_compute; auto |].
    split; [vm_compute; reflexivity |].
    split; [vm_compute; reflexivity |].
    eexists. eexists. split; [vm_compute; reflexivity | reflexivity].
Qed.
(** ** The recorded run *)

Section RecordedRun.

Local Open Scope string_scope.

Lemma recorded_most_common (Y : list label) :
  label_counts Y [("", 51971); ("F1", 924); ("F2", 384)] ->
  most_common (Counter Y) = [("", 51971); ("F1", 924); ("F2", 384)].
Proof.
  intros Hp. apply sorted_Permutation_eq.
  - apply most_common_sorted.
  - repeat constructor.
  - rewrite most_common_Permutation. exact Hp.
Qed.

(** X1. The class counts printed by cell 8 lead, with the notebook's constants,
    to the targets 3763 and 1564: the counts cell 10 printed for the
    resampled labels. *)
Theorem recorded_run_targets (Y : list label) :
  label_counts Y [("", 51971); ("F1", 924); ("F2", 384)] ->
  majority_class Y = [("", 51971)] /\
  minority_classes Y = [("F1", 924); ("F2", 384)] /\
  np_gt_1 (scale Notebook.target_minority_fraction Y) = true /\
  ratio_for Notebook.target_minority_fraction Y
    = Ok (Some [("F1", 3763); ("F2", 1564)]).
Proof.
  intros Hcounts.
  pose proof (recorded_most_common Y Hcounts) as Hmc.
  assert (Hmin : minority_classes Y = [("F1", 924); ("F2", 384)]).
  { unfold minority_classes. rewrite Hmc. reflexivity. }
  assert (Hsize : minority_classes_size Y = 1308).
  { unfold minority_classes_size. rewrite Hmin. reflexivity. }
  assert (HN : Z.of_nat (length Y) = 53279).
  { rewrite (label_counts_length Y _ Hcounts). reflexivity. }
  split; [unfold majority_class; rewrite Hmc; reflexivity |].
  split; [exact Hmin |].
  unfold ratio_for, scale, desired_minority_classes_size.
  rewrite Hsize, HN, Hmin.
  split; vm_compute; reflexivity.
Qed.

End RecordedRun.

Lemma recorded_run_targets_witness :
  majority_class Sample.Y_recorded = [(""%string, 51971)] /\
  minority_classes Sample.Y_recorded
    = [("F1"%string, 924); ("F2"%string, 384)] /\
  np_gt_1 (scale Notebook.target_minority_fraction Sample.Y_recorded) = true /\
  ratio_for Notebook.target_minority_fraction Sample.Y_recorded
    = Ok (Some [("F1"%string, 3763); ("F2"%string, 1564)]).
Proof.
  apply (recorded_run_targets Sample.Y_recorded).
  unfold label_counts. vm_compute. reflexivity.
Defined.

(** ** Majority and minority classes *)

Lemma most_common_split (Y : list label) :
  majority_class Y ++ minority_classes Y = most_common (Counter Y).
Proof. unfold majority_class, minority_classes. apply firstn_skipn. Qed.

Lemma minority_classes_positive (Y : list label) :
  Forall (fun c => 0 < snd c) (minority_classes Y).
Proof.
  apply Forall_forall. intros c Hin.
  unfold minority_classes in Hin. apply In_skipn in Hin.
  apply (Permutation_in _ (most_common_Permutation _)) in Hin.
  pose proof (Counter_positive Y) as Hpos. rewrite Forall_forall in Hpos.
  exact (Hpos _ Hin).
Qed.

Lemma sum_positive (l : list Z) :
  Forall (fun n => 0 < n) l -> l <> [] -> 0 < sum l.
Proof.
  unfold sum. induction 1 as [| n l Hn Hl IH]; intros Hne.
  - contradiction.
  - simpl. destruct l as [| n' l'].
    + simpl. lia.
    + assert (0 < fold_right Z.add 0 (n' :: l')) by (apply IH; discriminate).
      lia.
Qed.

Lemma minority_classes_size_positive (Y : list label) :
  minority_classes Y <> [] -> 0 < minority_classes_size Y.
Proof.
  intros Hne. unfold minority_classes_size. apply sum_positive.
  - apply Forall_forall. intros n Hn. apply in_map_iff in Hn.
    destruct Hn as [c [Hc Hin]]. subst n.
    pose proof (minority_classes_positive Y) as Hp.
    rewrite Forall_forall in Hp. exact (Hp _ Hin).
  - destruct (minority_classes Y); [contradiction | discriminate].
Qed.

(** A target computed with a scale above 1 is not below the count it is
    computed from, rounding included. *)
Lemma scaled_count_at_least (s : np_float) (c t : Z) :
  np_gt_1 s = true -> 0 < c <= 2 ^ 53 ->
  int (np_times (float64 (inject_Z c)) s) = Ok t -> c <= t.
Proof.
  intros Hgt Hc Hint.
  destruct (float64_ge_int (inject_Z c) c Hc (Qle_refl _))
    as [Hinf | [v [Hv Hcv]]].
  - rewrite Hinf in Hint.
    destruct s as [q | | |]; simpl in Hgt; try discriminate; simpl in Hint.
    apply Qltb_lt in Hgt.
    assert (H0 : Qltb 0 q = true)
      by (apply Qltb_lt; apply Qlt_trans with 1%Q; [reflexivity | exact Hgt]).
    rewrite H0 in Hint. discriminate.
  - rewrite Hv in Hint.
    assert (Hv0 : (0 < v)%Q).
    { eapply Qlt_le_trans; [apply inject_Z_pos; apply Hc | exact Hcv]. }
    destruct s as [q | | |]; simpl in Hgt; try discriminate.
    + apply Qltb_lt in Hgt. cbn [np_times] in Hint.
      assert (Hvq : (inject_Z c <= v * q)%Q).
      { apply Qle_trans with v; [exact Hcv |].
        rewrite <- (Qmult_1_r v) at 1.
        apply Qmult_le_l; [exact Hv0 | apply Qlt_le_weak; exact Hgt]. }
      destruct (float64_ge_int (v * q) c Hc Hvq) as [Hinf | [w [Hw Hcw]]].
      * rewrite Hinf in Hint. discriminate.
      * rewrite Hw in Hint.
        destruct (int_ge w c) as [n [Hn Hle]]; [lia | exact Hcw |].
        congruence.
    + cbn [np_times] in Hint.
      apply Qltb_lt in Hv0. rewrite Hv0 in Hint. discriminate.
Qed.

Lemma targets_at_least (s : np_float) (classes ts : list (label * Z)) :
  np_gt_1 s = true ->
  Forall (fun c => 0 < snd c <= 2 ^ 53) classes ->
  targets s classes = Ok ts ->
  Forall2 (fun c t =>
             fst t = fst c /\
             int (np_times (float64 (inject_Z (snd c))) s) = Ok (snd t) /\
             snd c <= snd t)
          classes ts.
Proof.
  intros Hgt Hall. revert ts.
  induction Hall as [| c l Hc Hl IH]; intros ts Hts; simpl in Hts.
  - inversion Hts. constructor.
  - destruct (int (np_times (float64 (inject_Z (snd c))) s)) as [t | e] eqn:Ht;
      simpl in Hts; [| discriminate].
    destruct (targets s l) as [others | e] eqn:Ho; simpl in Hts;
      [| discriminate].
    inversion Hts; subst ts. constructor.
    + split; [reflexivity |]. split; [exact Ht |].
      exact (scaled_count_at_least s (snd c) t Hgt Hc Ht).
    + apply IH. reflexivity.
Qed.

(** X2. A ratio handed to SMOTE names every minority class, in order, with
    [int(count * scale)] as its target, the product being the float one;
    for counts of at most 2^53 the target is not below the class's current
    count: the cell never asks for a class to shrink. *)
Theorem targets_not_below_counts (f : Q) (Y : list label)
    (ratio : list (label * Z)) :
  ratio_for f Y = Ok (Some ratio) ->
  Forall (fun c => snd c <= 2 ^ 53) (minority_classes Y) ->
  Forall2 (fun c t =>
             fst t = fst c /\
             int (np_times (float64 (inject_Z (snd c))) (scale f Y))
               = Ok (snd t) /\
             snd c <= snd t)
          (minority_classes Y) ratio.
Proof.
  intros Hratio Hsmall.
  destruct (ratio_for_keys f Y ratio Hratio) as [Hgt [Hts _]].
  apply targets_at_least; [exact Hgt | | exact Hts].
  pose proof (minority_classes_positive Y) as Hpos.
  rewrite Forall_forall in *. intros c Hin.
  split; [exact (Hpos c Hin) | exact (Hsmall c Hin)].
Qed.

Lemma targets_not_below_counts_witness :
  ratio_for (2 # 10) Sample.Y_scenario
    = Ok (Some [("F1"%string, 13); ("F2"%string, 8)]) /\
  Forall2 (fun c t =>
             fst t = fst c /\
             int (np_times (float64 (inject_Z (snd c)))
                           (scale (2 # 10) Sample.Y_scenario))
               = Ok (snd t) /\
             snd c <= snd t)
          (minority_classes Sample.Y_scenario)
          [("F1"%string, 13); ("F2"%string, 8)].
Proof.
  assert (H : ratio_for (2 # 10) Sample.Y_scenario
              = Ok (Some [("F1"%string, 13); ("F2"%string, 8)]))
    by (vm_compute; reflexivity).
  split; [exact H |].
  apply (targets_not_below_counts (2 # 10) Sample.Y_scenario _ H).
  repeat constructor; vm_compute; discriminate.
Defined.

(** X3. [most_common] splits the class counts into one majority class,
    whose count no other class exceeds, and the minority classes; together
    they are the Counter's entries, and their counts add up to the number of
    labels. *)
Theorem majority_minority_split (Y : list label) :
  Permutation (majority_class Y ++ minority_classes Y) (Counter Y) /\
  (forall m c, In m (majority_class Y) -> In c (minority_classes Y) ->
               snd c <= snd m) /\
  sum (map snd (majority_class Y)) + minority_classes_size Y
    = Z.of_nat (length Y) /\
  (Y <> [] -> length (majority_class Y) = 1%nat).
Proof.
  split; [| split; [| split]].
  - rewrite most_common_split. apply most_common_Permutation.
  - intros m c Hm Hc.
    pose proof (most_common_sorted (Counter Y)) as Hs.
    unfold majority_class, minority_classes in *.
    destruct (most_common (Counter Y)) as [| x rest]; simpl in *;
      [contradiction |].
    destruct Hm as [Hm | []]. subst m.
    inversion Hs as [| ? ? _ Hall]; subst.
    rewrite Forall_forall in Hall. exact (Hall c Hc).
  - unfold minority_classes_size. rewrite <- sum_app, <- map_app.
    rewrite most_common_split, <- Counter_sum.
    apply sum_Permutation, Permutation_map, most_common_Permutation.
  - intros Hne. unfold majority_class.
    pose proof (Permutation_length (most_common_Permutation (Counter Y))) as Hl.
    destruct (most_common (Counter Y)) as [| x rest]; [| reflexivity].
    exfalso. simpl in Hl.
    destruct Y as [| y Y']; [contradiction |].
    assert (Hin : In (y, occurrences (y :: Y') y) (Counter (y :: Y'))).
    { apply Counter_In. split; [reflexivity |].
      unfold occurrences. simpl. destruct (string_dec y y); [lia | contradiction]. }
    destruct (Counter (y :: Y')); [contradiction | discriminate].
Qed.

Lemma majority_minority_split_witness :
  Permutation (majority_class Sample.Y6 ++ minority_classes Sample.Y6)
              (Counter Sample.Y6) /\
  (forall m c, In m (majority_class Sample.Y6) ->
               In c (minority_classes Sample.Y6) -> snd c <= snd m) /\
  sum (map snd (majority_class Sample.Y6)) + minority_classes_size Sample.Y6
    = Z.of_nat (length Sample.Y6) /\
  length (majority_class Sample.Y6) = 1%nat.
Proof.
  destruct (majority_minority_split Sample.Y6) as [Hp [Hmax [Hsum Hone]]].
  split; [exact Hp | split; [exact Hmax | split; [exact Hsum |]]].
  apply Hone. discriminate.
Defined.

(** ** More on leakage trimming *)

Lemma trim_leakage_filter (lookback : Z) (train test : DataFrame) :
  trim_leakage lookback train test =
  filter (fun r => keep_row (r, lookup (machineID r) (min_cycles lookback test)))
         train.
Proof.
  unfold trim_leakage, join_max_cycle.
  induction train as [| r train IH]; simpl.
  - reflexivity.
  - destruct (keep_row (r, lookup (machineID r) (min_cycles lookback test)));
      simpl; rewrite IH; reflexivity.
Qed.

Lemma filter_idempotent {A : Type} (p : A -> bool) (l : list A) :
  filter p (filter p l) = filter p l.
Proof.
  induction l as [| x l IH]; simpl.
  - reflexivity.
  - destruct (p x) eqn:Hp; simpl; [rewrite Hp, IH |]; auto.
Qed.

(** X4. Leakage trimming only filters the training rows: trimming an
    already trimmed training split changes nothing, and a longer lookback
    keeps no row that a shorter one drops. *)
Theorem trim_leakage_filters (lookback lookback' : Z)
    (train test : DataFrame) :
  trim_leakage lookback (trim_leakage lookback train test) test
    = trim_leakage lookback train test /\
  (lookback <= lookback' ->
   forall r, In r (trim_leakage lookback' train test) ->
             In r (trim_leakage lookback train test)).
Proof.
  split.
  - rewrite !trim_leakage_filter. apply filter_idempotent.
  - intros Hle r Hin. apply trim_leakage_In in Hin. apply trim_leakage_In.
    destruct Hin as [Hin Hc]. split; [exact Hin |].
    destruct (lookup (machineID r) (groupby_cycle_min test)); [lia | exact I].
Qed.

Lemma trim_leakage_filters_witness :
  trim_leakage 1
    (trim_leakage 1 (firstn 8 (sort_index Sample.fleet))
       (skipn 8 (sort_index Sample.fleet)))
    (skipn 8 (sort_index Sample.fleet))
  = trim_leakage 1 (firstn 8 (sort_index Sample.fleet))
      (skipn 8 (sort_index Sample.fleet)) /\
  (forall r,
     In r (trim_leakage 3 (firstn 8 (sort_index Sample.fleet))
             (skipn 8 (sort_index Sample.fleet))) ->
     In r (trim_leakage 1 (firstn 8 (sort_index Sample.fleet))
             (skipn 8 (sort_index Sample.fleet)))).
Proof.
  destruct (trim_leakage_filters 1 3 (firstn 8 (sort_index Sample.fleet))
              (skipn 8 (sort_index Sample.fleet))) as [Hidem Hmono].
  split; [exact Hidem | apply Hmono; lia].
Defined.

(** ** The rows leakage trimming drops *)

(** X8. Leakage trimming drops exactly the training rows of a test entity
    that lie [lookback] cycles or less before the entity's first test cycle
    (or after it): such a row survives if and only if
    [cycle + lookback < min test cycle].  Every surviving row is therefore
    more than [lookback] cycles before each test row of its entity. *)
Theorem trim_leakage_exact (lookback : Z) (train test : DataFrame) :
  (forall r m, In r train -> min_test_cycle test (machineID r) m ->
     (In r (trim_leakage lookback train test) <-> cycle r + lookback < m)) /\
  (forall r r', In r (trim_leakage lookback train test) -> In r' test ->
     machineID r = machineID r' -> cycle r + lookback < cycle r').
Proof.
  split.
  - intros r m Hin Hmin. rewrite trim_leakage_In.
    pose proof (groupby_cycle_min_spec test (machineID r)) as Hspec.
    destruct (lookup (machineID r) (groupby_cycle_min test)) as [m' |].
    + rewrite (min_test_cycle_unique _ _ _ _ Hmin Hspec).
      split; [intros [_ H]; lia | intros H; split; [exact Hin | lia]].
    + exfalso. apply Hspec. destruct Hmin as [[r0 [H0 [Hid _]]] _].
      exists r0. split; assumption.
  - intros r r' Hin Hin' Hid. apply trim_leakage_In in Hin.
    destruct Hin as [_ Hc].
    pose proof (groupby_cycle_min_spec test (machineID r)) as Hspec.
    destruct (lookup (machineID r) (groupby_cycle_min test)) as [m |].
    + destruct Hspec as [_ Hle]. specialize (Hle r' Hin' (eq_sym Hid)). lia.
    + exfalso. apply Hspec. exists r'. split; [exact Hin' | congruence].
Qed.

Lemma trim_leakage_exact_witness :
  (In (Sample.row 4 1 4 "" 4) (trim_leakage 2 Sample.early Sample.late) /\
   ~ In (Sample.row 5 1 5 "" 5) (trim_leakage 2 Sample.early Sample.late)) /\
  trim_leakage 2 Sample.early Sample.late
  = map (fun c => Sample.row c 1 c "" (inject_Z c)) [1; 2; 3; 4].
Proof.
  destruct (trim_leakage_exact 2 Sample.early Sample.late) as [Hexact _].
  assert (Hmin : min_test_cycle Sample.late 1 7).
  { split.
    - exists (Sample.row 7 1 7 "" 7). simpl. auto.
    - intros r [<- | [<- | []]] _; simpl; lia. }
  split; [split |].
  - apply (Hexact (Sample.row 4 1 4 "" 4) 7); simpl; [auto 10 | exact Hmin | lia].
  - intros Hin.
    apply (Hexact (Sample.row 5 1 5 "" 5) 7) in Hin; simpl in *;
      [lia | auto 10 | exact Hmin].
  - reflexivity.
Defined.

(** ** Rows of the two splits *)

Lemma train_test_split_Ok_inv (rng : Z -> RandomState) {A : Type}
    (arrays train test : list A) (f : Q) (shuffle : option Z) :
  train_test_split rng arrays f shuffle = Ok (train, test) ->
  valid_fraction f /\ arrays <> [].
Proof.
  unfold train_test_split. intros H.
  destruct (np_lt (Finite 0) (float64 f) && np_lt (float64 f) (Finite 1))
    eqn:Hf; simpl in H; [| discriminate].
  split; [apply valid_fraction_check; exact Hf |].
  intros Hnil. subst arrays. discriminate H.
Qed.

Lemma filter_partition {A : Type} (p q : A -> bool) (l : list A) :
  (forall x, In x l -> q x = negb (p x)) ->
  Permutation (filter p l ++ filter q l) l.
Proof.
  induction l as [| x l IH]; intros Hpq.
  - reflexivity.
  - assert (IH' : Permutation (filter p l ++ filter q l) l).
    { apply IH. intros y Hy. apply Hpq. right. exact Hy. }
    simpl. rewrite (Hpq x (or_introl eq_refl)).
    destruct (p x); simpl.
    + apply perm_skip. exact IH'.
    + rewrite <- Permutation_middle. apply perm_skip. exact IH'.
Qed.

(** X9. The asset ID-based split loses and duplicates no row: the test split
    holds the rows of the drawn entities and the training split all other
    rows, both in the order of the dataset; no entity has rows on both
    sides, and the test split is not empty. *)
Theorem asset_split_partitions_rows (rng : Z -> RandomState)
    (data : DataFrame) (test_size : Q) (lookback seed : Z)
    (train test : DataFrame) :
  RandomState_wf (rng seed) ->
  split rng data false test_size lookback seed = Ok (train, test) ->
  test = filter (fun r => isin (machineID r) (entities test)) data /\
  train = filter (fun r => negb (isin (machineID r) (entities test))) data /\
  Permutation (train ++ test) data /\
  (forall r r', In r train -> In r' test -> machineID r <> machineID r') /\
  test <> [].
Proof.
  intros Hwf Hs.
  destruct (split_asset_based_inv _ _ _ _ _ _ _ Hs)
    as [train_assets [test_assets [Hsplit [Htrain Htest]]]].
  destruct (drawn_assets _ _ _ _ _ _ Hwf Hsplit) as [Hnd Hall].
  assert (Hin_test : forall r, In r data ->
            isin (machineID r) (entities test)
            = isin (machineID r) test_assets).
  { intros r Hr. apply eq_true_iff_eq. rewrite !isin_In. rewrite Htest.
    rewrite entities_isin. split; [intros [_ H]; exact H |].
    intros H. split; [| exact H]. unfold entities. apply in_map. exact Hr. }
  assert (Hin_train : forall r, In r data ->
            isin (machineID r) train_assets
            = negb (isin (machineID r) test_assets)).
  { intros r Hr.
    assert (He : In (machineID r) (entities data))
      by (unfold entities; apply in_map; exact Hr).
    apply Hall in He.
    destruct (isin (machineID r) test_assets) eqn:Ht; simpl.
    - apply isin_In in Ht.
      destruct (isin (machineID r) train_assets) eqn:Htr; [| reflexivity].
      apply isin_In in Htr. exfalso.
      exact (NoDup_app_disjoint _ _ _ Hnd Ht Htr).
    - apply isin_In. destruct He as [He | He]; [| exact He].
      apply isin_In in He. congruence. }
  assert (Htest' : test = filter (fun r => isin (machineID r) (entities test))
                                 data).
  { rewrite Htest at 1. apply filter_ext_in. intros r Hr.
    symmetry. apply Hin_test. exact Hr. }
  assert (Htrain' : train
            = filter (fun r => negb (isin (machineID r) (entities test))) data).
  { rewrite Htrain. apply filter_ext_in. intros r Hr.
    rewrite (Hin_test r Hr). apply Hin_train. exact Hr. }
  split; [exact Htest' |]. split; [exact Htrain' |].
  split; [| split].
  - rewrite Htrain, Htest. apply filter_partition. intros r Hr.
    rewrite (Hin_train r Hr). rewrite negb_involutive. reflexivity.
  - intros r r' Hr Hr' Heq.
    rewrite Htrain in Hr. rewrite Htest in Hr'.
    apply filter_In in Hr. apply filter_In in Hr'.
    destruct Hr as [_ Hr]. destruct Hr' as [_ Hr'].
    apply isin_In in Hr. apply isin_In in Hr'. rewrite Heq in Hr.
    exact (NoDup_app_disjoint _ _ _ Hnd Hr' Hr).
  - destruct (train_test_split_Ok_inv _ _ _ _ _ _ Hsplit) as [Hf Hne].
    destruct (train_test_split_shuffled _ _ _ _ _ _ Hwf Hsplit) as [_ Hlen].
    assert (Hn : (0 < length (unique (map machineID data)))%nat).
    { destruct (unique (map machineID data)); [contradiction | simpl; lia]. }
    pose proof (ceil_fraction_positive _ _ Hf Hn) as H1.
    destruct test_assets as [| e rest]; [simpl in Hlen; lia |].
    assert (He : In e (entities data)) by (apply Hall; left; left; reflexivity).
    unfold entities in He. apply in_map_iff in He.
    destruct He as [r [Hid Hr]].
    intros Hnil. rewrite Htest in Hnil.
    assert (Hrin : In r (filter (fun r => isin (machineID r) (e :: rest)) data)).
    { apply filter_In. split; [exact Hr |]. apply isin_In. left.
      symmetry. exact Hid. }
    rewrite Hnil in Hrin. exact Hrin.
Qed.

Lemma asset_split_partitions_rows_witness :
  exists train test,
    split Sample.rng Sample.fleet false (2 # 10) 5 42 = Ok (train, test) /\
    test = filter (fun r => isin (machineID r) (entities test)) Sample.fleet /\
    train = filter (fun r => negb (isin (machineID r) (entities test)))
                   Sample.fleet /\
    Permutation (train ++ test) Sample.fleet /\
    (forall r r', In r train -> In r' test -> machineID r <> machineID r') /\
    test <> [].
Proof.
  eexists. eexists. split; [reflexivity |].
  apply (asset_split_partitions_rows Sample.rng Sample.fleet (2 # 10) 5 42).
  - apply Sample_rng_wf.
  - reflexivity.
Defined.

(** ** Order of the time-based split *)

Lemma insert_by_index_sorted (r : record) (d : DataFrame) :
  StronglySorted by_entryID d -> StronglySorted by_entryID (insert_by_index r d).
Proof.
  induction 1 as [| r' d Hd IH Hall]; simpl.
  - repeat constructor.
  - destruct (Z.leb_spec (entryID r) (entryID r')) as [Hle | Hgt].
    + constructor; [constructor; assumption |].
      constructor; [exact Hle |].
      rewrite Forall_forall in *. intros x Hx.
      specialize (Hall x Hx). unfold by_entryID in *. lia.
    + constructor; [exact IH |].
      rewrite Forall_forall in *. intros x Hx.
      apply (Permutation_in _ (insert_by_index_Permutation r d)) in Hx.
      destruct Hx as [<- | Hx]; [unfold by_entryID; lia | exact (Hall x Hx)].
Qed.

Lemma sort_index_sorted (d : DataFrame) : StronglySorted by_entryID (sort_index d).
Proof.
  unfold sort_index. induction d as [| r d IH]; simpl.
  - constructor.
  - apply insert_by_index_sorted. exact IH.
Qed.

Lemma sorted_filter_prefix (p : record -> bool) (a b : DataFrame) :
  StronglySorted by_entryID (a ++ b) ->
  StronglySorted by_entryID (filter p a ++ b).
Proof.
  induction a as [| r a IH]; simpl; intros Hs.
  - exact Hs.
  - inversion Hs as [| ? ? Hs' Hall]; subst.
    destruct (p r); [| exact (IH Hs')].
    simpl. constructor; [exact (IH Hs') |].
    rewrite Forall_forall in *. intros x Hx. apply Hall.
    apply in_app_iff in Hx. apply in_app_iff.
    destruct Hx as [Hx | Hx]; [left | right; exact Hx].
    apply filter_In in Hx. apply Hx.
Qed.

Lemma sorted_app_le (a b : DataFrame) (r r' : record) :
  StronglySorted by_entryID (a ++ b) -> In r a -> In r' b ->
  entryID r <= entryID r'.
Proof.
  induction a as [| x a IH]; simpl; intros Hs Hr Hr'.
  - contradiction.
  - inversion Hs as [| ? ? Hs' Hall]; subst.
    destruct Hr as [<- | Hr].
    + rewrite Forall_forall in Hall. apply Hall. apply in_app_iff. right.
      exact Hr'.
    + exact (IH Hs' Hr Hr').
Qed.

(** X10. The time-based split cuts the dataset in row-identifier order: the
    test split holds the last [ceil(test_size * n)] rows, the product being
    the float one, at least one row and no more than there are;
    training rows followed by test rows are in increasing order of
    [entryID], so that no training row comes after a test row; and the two
    splits together with the rows trimming dropped are the rows of the
    dataset. *)
Theorem time_split_chronological (rng : Z -> RandomState) (data : DataFrame)
    (test_size : Q) (lookback seed : Z) (train test : DataFrame) :
  split rng data true test_size lookback seed = Ok (train, test) ->
  length test
    = Nat.min (ceil_fraction test_size (length data)) (length data) /\
  test <> [] /\
  StronglySorted by_entryID (train ++ test) /\
  (forall r r', In r train -> In r' test -> entryID r <= entryID r') /\
  exists dropped,
    Permutation (train ++ dropped ++ test) data /\
    forall r, In r dropped ->
      exists r', In r' test /\ machineID r' = machineID r /\
                 cycle r' - lookback <= cycle r.
Proof.
  intros Hs.
  destruct (split_time_based_inv _ _ _ _ _ _ _ Hs) as [rough [Hsplit Htrain]].
  destruct (train_test_split_Ok_inv _ _ _ _ _ _ Hsplit) as [Hf Hne].
  pose proof (Permutation_length (sort_index_Permutation data)) as Hlen.
  assert (Hn : (0 < length (sort_index data))%nat).
  { destruct (sort_index data); [contradiction | simpl; lia]. }
  pose proof (ceil_fraction_positive _ _ Hf Hn) as H1.
  unfold train_test_split in Hsplit.
  destruct (np_lt (Finite 0) (float64 test_size)
            && np_lt (float64 test_size) (Finite 1)); simpl in Hsplit;
    [| discriminate].
  destruct (length (sort_index data)) as [| n'] eqn:Hl; [lia |].
  rewrite <- Hl in *. injection Hsplit as Hrough Htest.
  set (k := (length (sort_index data)
             - ceil_fraction test_size (length (sort_index data)))%nat) in *.
  assert (Hjoin : rough ++ test = sort_index data).
  { rewrite <- Hrough, <- Htest. apply firstn_skipn. }
  assert (Hlt : length test
                = Nat.min (ceil_fraction test_size (length data))
                          (length data)).
  { rewrite <- Htest, length_skipn. unfold k. rewrite <- Hlen. lia. }
  assert (Hsorted : StronglySorted by_entryID (train ++ test)).
  { rewrite Htrain, trim_leakage_filter. apply sorted_filter_prefix.
    rewrite Hjoin. apply sort_index_sorted. }
  split; [exact Hlt |].
  split; [intros Hnil; rewrite Hnil in Hlt; simpl in Hlt; rewrite <- Hlen in Hlt;
          lia |].
  split; [exact Hsorted |].
  split; [intros r r' Hr Hr'; exact (sorted_app_le _ _ _ _ Hsorted Hr Hr') |].
  exists (filter (fun r => negb (keep_row
                    (r, lookup (machineID r) (min_cycles lookback test))))
                 rough).
  split.
  - rewrite app_assoc. rewrite <- (sort_index_Permutation data), <- Hjoin.
    apply Permutation_app_tail. rewrite Htrain, trim_leakage_filter.
    apply filter_partition. intros r _. reflexivity.
  - intros r Hr. apply filter_In in Hr. destruct Hr as [_ Hdrop].
    unfold keep_row, min_cycles in Hdrop. cbn [fst snd] in Hdrop.
    rewrite lookup_map_sub in Hdrop.
    pose proof (groupby_cycle_min_spec test (machineID r)) as Hspec.
    destruct (lookup (machineID r) (groupby_cycle_min test)) as [m |];
      simpl in Hdrop; [| discriminate].
    destruct Hspec as [[r' [Hr' [Hid Hc]]] _].
    exists r'. split; [exact Hr' |]. split; [exact Hid |].
    apply negb_true_iff, Z.ltb_ge in Hdrop. lia.
Qed.

Lemma time_split_chronological_witness :
  exists train test,
    split Sample.rng Sample.fleet true (2 # 10) 1 42 = Ok (train, test) /\
    length test = 2%nat /\
    length test
      = Nat.min (ceil_fraction (2 # 10) (length Sample.fleet))
                (length Sample.fleet) /\
    test <> [] /\
    StronglySorted by_entryID (train ++ test) /\
    (forall r r', In r train -> In r' test -> entryID r <= entryID r') /\
    exists dropped,
      Permutation (train ++ dropped ++ test) Sample.fleet /\
      forall r, In r dropped ->
        exists r', In r' test /\ machineID r' = machineID r /\
                   cycle r' - 1 <= cycle r.
Proof.
  eexists. eexists. split; [vm_compute; reflexivity |].
  split; [reflexivity |].
  apply (time_split_chronological Sample.rng Sample.fleet (2 # 10) 1 42).
  vm_compute. reflexivity.
Defined.

(** ** The confusion matrix plot *)

Lemma sum_cons (n : Z) (l : list Z) : sum (n :: l) = n + sum l.
Proof. reflexivity. Qed.

Lemma sum_nonneg (row : list Z) :
  Forall (fun c => 0 <= c) row ->
  0 <= sum row /\ forall c, In c row -> c <= sum row.
Proof.
  induction 1 as [| x l Hx Hl [IH0 IH]].
  - split; [simpl; lia | intros c []].
  - rewrite sum_cons. split; [lia |].
    intros c [<- | Hc]; [lia |]. specialize (IH c Hc). lia.
Qed.

Lemma sum_zero (row : list Z) :
  Forall (fun c => 0 <= c) row -> sum row = 0 -> forall c, In c row -> c = 0.
Proof.
  intros Hnn Hz c Hc. destruct (sum_nonneg row Hnn) as [_ Hle].
  specialize (Hle c Hc). rewrite Forall_forall in Hnn. specialize (Hnn c Hc).
  lia.
Qed.


(** The entries of a row whose sum is not zero. *)
Lemma normalised_entry (row : list Z) (c : Z) :
  Forall (fun c => 0 <= c) row -> sum row <> 0 -> In c row ->
  np_div (inject_Z c) (sum row) = Finite (inject_Z c / inject_Z (sum row)) /\
  (0 <= inject_Z c / inject_Z (sum row))%Q /\
  (inject_Z c / inject_Z (sum row) <= 1)%Q.
Proof.
  intros Hnn Hs Hc. destruct (sum_nonneg row Hnn) as [H0 Hle].
  specialize (Hle c Hc).
  assert (Hc0 : 0 <= c) by (rewrite Forall_forall in Hnn; exact (Hnn c Hc)).
  assert (HsQ : (0 < inject_Z (sum row))%Q) by (apply inject_Z_pos; lia).
  split; [| split].
  - unfold np_div. destruct (sum row =? 0) eqn:Hz; [| reflexivity].
    apply Z.eqb_eq in Hz. contradiction.
  - apply Qle_shift_div_l; [exact HsQ |]. rewrite Qmult_0_l.
    apply (inject_Z_le 0 c). exact Hc0.
  - apply Qle_shift_div_r; [exact HsQ |]. rewrite Qmult_1_l.
    apply inject_Z_le. exact Hle.
Qed.

Lemma zero_entry (row : list Z) (c : Z) :
  Forall (fun c => 0 <= c) row -> sum row = 0 -> In c row ->
  np_div (inject_Z c) (sum row) = NaN.
Proof.
  intros Hnn Hz Hc. rewrite (sum_zero row Hnn Hz c Hc), Hz. reflexivity.
Qed.

(** X11. Row normalisation of the confusion matrix: a row of counts whose
    sum is not zero becomes a row of as many numbers, each between 0 and 1
    and 0 only for a count of 0; a row without any count becomes a row of
    nan. *)
Theorem normalise_rows (cm : list (list Z)) :
  Forall (Forall (fun c => 0 <= c)) cm ->
  Forall2 (fun row nrow =>
             (sum row <> 0 ->
              Forall2 (fun c v => exists q, v = Finite q /\
                                            (0 <= q /\ q <= 1)%Q /\
                                            ((q == 0)%Q <-> c = 0))
                      row nrow) /\
             (sum row = 0 -> nrow = repeat NaN (length row)))
          cm (normalise cm).
Proof.
  unfold normalise. induction 1 as [| row cm Hrow Hcm IH]; simpl.
  - constructor.
  - constructor; [| exact IH]. split.
    + intros Hs.
      assert (Hall : forall c, In c row ->
                exists q, np_div (inject_Z c) (sum row) = Finite q /\
                          (0 <= q /\ q <= 1)%Q /\ ((q == 0)%Q <-> c = 0)).
      { intros c Hc.
        destruct (normalised_entry row c Hrow Hs Hc) as [Hv [H0 H1]].
        eexists. split; [exact Hv |]. split; [split; assumption |].
        destruct (sum_nonneg row Hrow) as [Hsum _].
        assert (Hpos : (0 < inject_Z (sum row))%Q)
          by (apply inject_Z_pos; lia).
        assert (Hnz : ~ (inject_Z (sum row) == 0)%Q).
        { intros Hz. rewrite Hz in Hpos. exact (Qlt_irrefl _ Hpos). }
        split.
        - intros Hq.
          assert (Hc0 : (inject_Z c == 0)%Q).
          { rewrite <- (Qmult_div_r (inject_Z c) (inject_Z (sum row)) Hnz).
            rewrite Hq. ring. }
          unfold Qeq in Hc0. simpl in Hc0. lia.
        - intros ->. unfold Qdiv. ring. }
      clear Hrow Hs. revert Hall. generalize (sum row). intros s Hall.
      induction row as [| c row IHrow]; simpl; constructor.
      * apply Hall. left. reflexivity.
      * apply IHrow. intros c' Hc'. apply Hall. right. exact Hc'.
    + intros Hz. rewrite <- map_const. apply map_ext_in. intros c Hc.
      apply (zero_entry row c Hrow Hz Hc).
Qed.

Lemma normalise_rows_witness :
  Forall2 (fun row nrow =>
             (sum row <> 0 ->
              Forall2 (fun c v => exists q, v = Finite q /\
                                            (0 <= q /\ q <= 1)%Q /\
                                            ((q == 0)%Q <-> c = 0))
                      row nrow) /\
             (sum row = 0 -> nrow = repeat NaN (length row)))
          Sample.cm_unseen (normalise Sample.cm_unseen).
Proof.
  apply (normalise_rows Sample.cm_unseen).
  repeat constructor; discriminate.
Defined.

Lemma fold_maximum_nan (rest : list np_float) (x : np_float) :
  x = NaN \/ In NaN rest -> fold_left np_maximum rest x = NaN.
Proof.
  revert x. induction rest as [| y rest IH]; intros x [Hx | Hin]; simpl.
  - exact Hx.
  - contradiction.
  - subst x. apply IH. left. reflexivity.
  - apply IH. destruct Hin as [-> | Hin]; [left | right; exact Hin].
    destruct x; reflexivity.
Qed.

Lemma np_max_nan (a : list np_float) : In NaN a -> np_max a = Some NaN.
Proof.
  destruct a as [| x rest]; [intros [] |]. intros [Hx | Hin]; simpl; f_equal;
    apply fold_maximum_nan; auto.
Qed.



(** ** Cells of a matrix *)

Lemma counts_matrix_row (n k : nat) (cm : list (list Z)) (i : nat) :
  counts_matrix n k cm -> (i < n)%nat ->
  In (nth i cm []) cm /\ length (nth i cm []) = k /\
  Forall (fun c => 0 <= c) (nth i cm []).
Proof.
  intros [Hn Hrows] Hi.
  assert (Hin : In (nth i cm []) cm) by (apply nth_In; lia).
  rewrite Forall_forall in Hrows. destruct (Hrows _ Hin) as [Hk Hnn].
  auto.
Qed.

Lemma shape_normalise (n k : nat) (cm : list (list Z)) :
  counts_matrix n k cm -> (0 < n)%nat -> shape (normalise cm) = (n, k).
Proof.
  intros [Hn Hrows] Hpos. unfold shape, normalise. rewrite length_map, Hn.
  destruct cm as [| row cm]; [simpl in Hn; lia |].
  simpl. rewrite length_map. inversion Hrows as [| ? ? [Hk _] _]; subst.
  reflexivity.
Qed.

Lemma item_normalise (n k : nat) (cm : list (list Z)) (i j : nat) :
  counts_matrix n k cm -> (i < n)%nat -> (j < k)%nat ->
  item NaN (normalise cm) i j
  = np_div (inject_Z (item 0 cm i j)) (sum (nth i cm [])) /\
  In (item 0 cm i j) (nth i cm []).
Proof.
  intros Hcm Hi Hj. destruct (counts_matrix_row n k cm i Hcm Hi) as [_ [Hk _]].
  unfold item, normalise.
  change (@nil np_float)
    with ((fun row => map (fun c => np_div (inject_Z c) (sum row)) row) []).
  rewrite map_nth. split.
  - rewrite (nth_indep _ NaN (np_div (inject_Z 0) (sum (nth i cm []))))
      by (rewrite length_map; lia).
    rewrite (map_nth (fun c => np_div (inject_Z c) (sum (nth i cm [])))).
    reflexivity.
  - apply nth_In. lia.
Qed.


Lemma item_In_concat {A : Type} (d : A) (a : list (list A)) (i j : nat) :
  (i < length a)%nat -> (j < length (nth i a []))%nat ->
  In (item d a i j) (concat a).
Proof.
  intros Hi Hj. apply in_concat. exists (nth i a []). split.
  - apply nth_In. exact Hi.
  - unfold item. apply nth_In. exact Hj.
Qed.

Lemma length_normalise_row (cm : list (list Z)) (i : nat) :
  length (nth i (normalise cm) []) = length (nth i cm []).
Proof.
  unfold normalise.
  change (@nil np_float)
    with ((fun row => map (fun c => np_div (inject_Z c) (sum row)) row) []).
  rewrite map_nth. apply length_map.
Qed.

(** The texts [plot_confusion_matrix] writes, one per cell. *)
Lemma plot_texts (cm : list (list Z)) (classes : list string) (fig : Figure) :
  plot_confusion_matrix cm classes = Some fig ->
  exists largest,
    np_max (concat (normalise cm)) = Some largest /\
    image fig = normalise cm /\
    texts fig
    = map (fun ij =>
             mkText (snd ij) (fst ij) (item NaN (normalise cm) (fst ij) (snd ij))
               (item 0 cm (fst ij) (snd ij))
               (if np_gt (item NaN (normalise cm) (fst ij) (snd ij))
                         (np_half largest)
                then "white"%string else "black"%string))
          (list_prod (seq 0 (fst (shape (normalise cm))))
                     (seq 0 (snd (shape (normalise cm))))).
Proof.
  unfold plot_confusion_matrix.
  destruct (np_max (concat (normalise cm))) as [largest |]; [| discriminate].
  intros H. injection H as <-. exists largest. auto.
Qed.

Lemma plot_succeeds (n k : nat) (cm : list (list Z)) (classes : list string) :
  counts_matrix n k cm -> (0 < n)%nat -> (0 < k)%nat ->
  exists fig largest,
    plot_confusion_matrix cm classes = Some fig /\
    np_max (concat (normalise cm)) = Some largest /\
    length (texts fig) = (n * k)%nat /\
    map (fun a => (text_y a, text_x a)) (texts fig)
    = list_prod (seq 0 n) (seq 0 k) /\
    forall a, In a (texts fig) ->
      (text_y a < n)%nat /\ (text_x a < k)%nat /\
      text_count a = item 0 cm (text_y a) (text_x a) /\
      In (text_count a) (nth (text_y a) cm []) /\
      text_value a = np_div (inject_Z (text_count a))
                            (sum (nth (text_y a) cm [])) /\
      text_color a = (if np_gt (text_value a) (np_half largest)
                      then "white"%string else "black"%string).
Proof.
  intros Hcm Hn Hk.
  assert (Hne : concat (normalise cm) <> []).
  { intros Hnil.
    assert (Hin : In (item NaN (normalise cm) 0 0) (concat (normalise cm))).
    { apply item_In_concat.
      - unfold normalise. rewrite length_map. destruct Hcm as [-> _]. exact Hn.
      - rewrite length_normalise_row.
        destruct (counts_matrix_row n k cm 0 Hcm Hn) as [_ [-> _]]. exact Hk. }
    rewrite Hnil in Hin. exact Hin. }
  destruct (plot_confusion_matrix cm classes) as [fig |] eqn:Hplot.
  - destruct (plot_texts cm classes fig Hplot) as [largest [Hmax [_ Htexts]]].
    rewrite (shape_normalise n k cm Hcm Hn) in Htexts. cbn [fst snd] in Htexts.
    exists fig, largest. split; [reflexivity |]. split; [exact Hmax |].
    split; [| split].
    + rewrite Htexts, length_map, length_prod, !length_seq. reflexivity.
    + rewrite Htexts, map_map. cbn [text_x text_y].
      rewrite <- (map_id (list_prod (seq 0 n) (seq 0 k))) at 2.
      apply map_ext. intros [i j]. reflexivity.
    + intros a Ha. rewrite Htexts in Ha. apply in_map_iff in Ha.
      destruct Ha as [[i j] [<- Hij]]. apply in_prod_iff in Hij.
      destruct Hij as [Hi Hj]. apply in_seq in Hi. apply in_seq in Hj.
      cbn [fst snd text_x text_y text_value text_count text_color].
      destruct (item_normalise n k cm i j Hcm) as [Hval Hin]; [lia | lia |].
      rewrite Hval. repeat split; try lia; try reflexivity. exact Hin.
  - exfalso. unfold plot_confusion_matrix in Hplot.
    destruct (concat (normalise cm)) as [| x rest]; [contradiction |].
    simpl in Hplot. discriminate Hplot.
Qed.



(** X13. When some class has no true label, its row of the confusion matrix
    holds no count and normalises to nan; the largest value and the
    threshold are then nan as well, and every text of the plot is black,
    whatever its value. *)
Theorem zero_row_blackens (n k : nat) (cm : list (list Z))
    (classes : list string) :
  counts_matrix n k cm -> (0 < k)%nat ->
  (exists row, In row cm /\ sum row = 0) ->
  exists fig,
    plot_confusion_matrix cm classes = Some fig /\
    np_max (concat (image fig)) = Some NaN /\
    length (texts fig) = (n * k)%nat /\
    forall a, In a (texts fig) -> text_color a = "black"%string.
Proof.
  intros Hcm Hk [row [Hrow Hz]].
  assert (Hn : (0 < n)%nat).
  { destruct Hcm as [Hn _]. destruct cm; [contradiction | simpl in Hn; lia]. }
  destruct (plot_succeeds n k cm classes Hcm Hn Hk)
    as [fig [largest [Hplot [Hmax [Hlen [_ Htexts]]]]]].
  assert (Hnan : np_max (concat (normalise cm)) = Some NaN).
  { apply np_max_nan. apply in_concat.
    exists (map (fun c => np_div (inject_Z c) (sum row)) row). split.
    - unfold normalise.
      apply (in_map (fun row => map (fun c => np_div (inject_Z c) (sum row)) row)).
      exact Hrow.
    - destruct Hcm as [_ Hrows]. rewrite Forall_forall in Hrows.
      destruct (Hrows row Hrow) as [Hlenr Hnn].
      destruct row as [| c row']; [simpl in Hlenr; lia |].
      left. apply (zero_entry (c :: row') c Hnn Hz). left. reflexivity. }
  rewrite Hnan in Hmax. injection Hmax as <-.
  exists fig. split; [exact Hplot |].
  destruct (plot_texts cm classes fig Hplot) as [_ [_ [Himage _]]].
  split; [rewrite Himage; exact Hnan |].
  split; [exact Hlen |].
  intros a Ha. destruct (Htexts a Ha) as [_ [_ [_ [_ [_ Hcol]]]]].
  rewrite Hcol. unfold np_gt, np_half, np_lt. reflexivity.
Qed.

Lemma zero_row_blackens_witness :
  exists fig,
    plot_confusion_matrix Sample.cm_unseen (class_names Sample.Y_scenario)
      = Some fig /\
    np_max (concat (image fig)) = Some NaN /\
    length (texts fig) = (3 * 3)%nat /\
    forall a, In a (texts fig) -> text_color a = "black"%string.
Proof.
  apply (zero_row_blackens 3 3 Sample.cm_unseen (class_names Sample.Y_scenario)).
  - split; [reflexivity |]. repeat constructor; discriminate.
  - lia.
  - exists [0; 0; 0]. split; [simpl; auto | reflexivity].
Defined.

(** ** Training labels without a minority class *)

Lemma Counter_repeat (l : label) (n : nat) :
  Counter (repeat l (S n)) = [(l, Z.of_nat (S n))].
Proof.
  induction n as [| n IH].
  - reflexivity.
  - change (repeat l (S (S n))) with (l :: repeat l (S n)).
    rewrite repeat_cons, Counter_snoc, IH. cbn [incr].
    rewrite String.eqb_refl. f_equal. f_equal. lia.
Qed.

(** A label vector of a single class has no minority class. *)
Lemma single_class_no_minority (l : label) (n : nat) :
  minority_classes (repeat l n) = [].
Proof.
  destruct n as [| n]; [reflexivity |].
  unfold minority_classes. rewrite Counter_repeat. reflexivity.
Qed.

(** Division by the float zero: the sign of the dividend decides. *)
Lemma np_over_zero (d : np_float) :
  np_gt_1 (np_over d (Finite 0)) = np_lt (Finite 0) d /\
  (np_lt (Finite 0) d = true -> np_over d (Finite 0) = PosInf).
Proof.
  destruct d as [a | | |]; simpl; try (split; [reflexivity | congruence]).
  - change (Qeq_bool 0 0) with true. cbn iota.
    destruct (Qltb 0 a) eqn:Ha; [split; reflexivity |].
    destruct (Qltb a 0); split; (reflexivity || discriminate).
Qed.

Lemma float64_nonpositive (q : Q) :
  (q <= 0)%Q -> np_lt (Finite 0) (float64 q) = false.
Proof.
  intros Hq. pose proof (float64_sign q) as Hs.
  destruct (float64 q) as [v | | |]; simpl; try reflexivity.
  - destruct (Qltb 0 v) eqn:Hv; [| reflexivity].
    apply Qltb_lt in Hv. destruct Hs as [Hpos _]. destruct (Hpos Hv) as [H0 _].
    exfalso. exact (Qlt_irrefl _ (Qlt_le_trans _ _ _ H0 Hq)).
  - exfalso. exact (Qlt_irrefl _ (Qlt_le_trans _ _ _ Hs Hq)).
Qed.

Lemma np_times_nonpositive (x y : np_float) :
  np_lt (Finite 0) x = true -> np_lt (Finite 0) y = false ->
  np_lt (Finite 0) (np_times x y) = false.
Proof.
  destruct x as [a | | |], y as [b | | |]; simpl; intros Hx Hy;
    try discriminate; try reflexivity.
  - apply float64_nonpositive. apply Qltb_lt in Hx. apply Qltb_ge in Hy.
    rewrite <- (Qmult_0_r a). apply Qmult_le_l; assumption.
  - rewrite Hx. reflexivity.
  - rewrite Hy. destruct (Qltb b 0); reflexivity.
Qed.

Lemma float64_count_positive (n : Z) :
  0 < n -> np_lt (Finite 0) (float64 (inject_Z n)) = true.
Proof.
  intros Hn. destruct (float64_count n Hn) as [-> | [v [-> Hv]]];
    [reflexivity |].
  simpl. apply Qltb_lt. eapply Qlt_le_trans; [| exact Hv]. reflexivity.
Qed.

(** X14. Without a minority class the division of the balancing cell is a
    division by zero, which numpy answers without raising.  On an empty
    label vector the scale is nan and no ratio is built.  On labels of a
    single class the scale is +inf when the float of
    [target_minority_fraction] is positive, and the cell then builds an
    empty ratio; for a fraction that is not positive no ratio is built. *)
Theorem ratio_without_minority (f : Q) (Y : list label) :
  minority_classes Y = [] ->
  (Y = [] -> scale f Y = NaN /\ ratio_for f Y = Ok None) /\
  (Y <> [] -> np_lt (Finite 0) (float64 f) = true ->
   scale f Y = PosInf /\ ratio_for f Y = Ok (Some [])) /\
  (Y <> [] -> (f <= 0)%Q -> ratio_for f Y = Ok None).
Proof.
  intros Hmin.
  assert (Hscale : scale f Y
                   = np_over (desired_minority_classes_size f Y) (Finite 0)).
  { unfold scale, minority_classes_size. rewrite Hmin. reflexivity. }
  assert (Hlen : Y <> [] ->
            np_lt (Finite 0) (float64 (inject_Z (Z.of_nat (length Y)))) = true).
  { intros Hne. apply float64_count_positive.
    destruct Y; [contradiction | simpl; lia]. }
  destruct (np_over_zero (desired_minority_classes_size f Y)) as [Hgt Hinf].
  split; [| split].
  - intros ->.
    assert (Hnan : scale f [] = NaN).
    { unfold scale, desired_minority_classes_size. simpl length.
      change (float64 (inject_Z (Z.of_nat 0))) with (Finite 0).
      change (minority_classes_size []) with 0.
      change (float64 (inject_Z 0)) with (Finite 0).
      destruct (float64 f) as [b | | |]; reflexivity. }
    split; [exact Hnan |]. apply ratio_for_None. rewrite Hnan. reflexivity.
  - intros Hne Hf.
    assert (Hd : np_lt (Finite 0) (desired_minority_classes_size f Y) = true).
    { unfold desired_minority_classes_size.
      assert (Hn : 0 < Z.of_nat (length Y))
        by (destruct Y; [contradiction | simpl; lia]).
      destruct (float64 f) as [q | | |] eqn:Hq; try discriminate.
      - simpl in Hf. apply Qltb_lt in Hf.
        destruct (np_times_positive q f _ Hq Hf Hn) as [-> | [v [-> Hv]]];
          [reflexivity |].
        simpl. apply Qltb_lt. exact Hv.
      - specialize (Hlen Hne).
        destruct (float64 (inject_Z (Z.of_nat (length Y)))) as [a | | |];
          try discriminate; [| reflexivity].
        simpl in Hlen. simpl. rewrite Hlen. reflexivity. }
    rewrite Hscale, (Hinf Hd). split; [reflexivity |].
    unfold ratio_for. rewrite Hscale, (Hinf Hd), Hmin. reflexivity.
  - intros Hne Hf. apply ratio_for_None.
    rewrite Hscale, Hgt. unfold desired_minority_classes_size.
    apply np_times_nonpositive; [exact (Hlen Hne) |].
    apply float64_nonpositive. exact Hf.
Qed.

Lemma ratio_without_minority_witness :
  (scale (1 # 10) (repeat ""%string 4) = PosInf /\
   ratio_for (1 # 10) (repeat ""%string 4) = Ok (Some [])) /\
  ratio_for (-1 # 10) (repeat ""%string 4) = Ok None /\
  (scale (1 # 10) [] = NaN /\ ratio_for (1 # 10) [] = Ok None).
Proof.
  destruct (ratio_without_minority (1 # 10) (repeat ""%string 4) eq_refl)
    as [_ [Hpos _]].
  destruct (ratio_without_minority (-1 # 10) (repeat ""%string 4) eq_refl)
    as [_ [_ Hneg]].
  destruct (ratio_without_minority (1 # 10) [] eq_refl) as [Hempty _].
  split; [apply Hpos; [discriminate | vm_compute; reflexivity] |].
  split; [apply Hneg; discriminate | apply Hempty; reflexivity].
Defined.
(** ** The input sample *)

Lemma safe_indexing_valid {A : Type} (a : list A) (indices : list nat) :
  Forall (fun i => (i < length a)%nat) indices ->
  Forall2 (fun i x => nth_error a i = Some x) indices (safe_indexing a indices).
Proof.
  induction 1 as [| i indices Hi Hrest IH]; simpl.
  - constructor.
  - destruct (nth_error a i) as [x |] eqn:Hnth.
    + simpl. constructor; [exact Hnth | exact IH].
    + apply nth_error_None in Hnth. lia.
Qed.

Lemma drawn_positions (rng : RandomState) (n len : nat) :
  RandomState_wf rng -> (n <= len)%nat ->
  NoDup (firstn n (permutation rng len)) /\
  length (firstn n (permutation rng len)) = n /\
  Forall (fun i => (i < len)%nat) (firstn n (permutation rng len)).
Proof.
  intros Hwf Hn. pose proof (permutation_wf rng Hwf len) as Hperm.
  split; [| split].
  - assert (Hnd : NoDup (permutation rng len)).
    { apply (Permutation_NoDup (Permutation_sym Hperm)). apply seq_NoDup. }
    rewrite <- (firstn_skipn n (permutation rng len)) in Hnd.
    apply NoDup_app_parts in Hnd. apply Hnd.
  - rewrite length_firstn, (Permutation_length Hperm), length_seq. lia.
  - apply Forall_forall. intros i Hi. apply In_firstn in Hi.
    apply (Permutation_in _ Hperm) in Hi. apply in_seq in Hi. lia.
Qed.

(** The fields written for one row of the feature table. *)
Lemma to_record_fields (encode : cell -> string) (r : record) :
  (forall name, In name columns_to_drop ->
     ~ In name (map fst (to_record encode (drop columns_to_drop (columns r))))) /\
  (forall c, In c (columns r) -> ~ In (fst c) columns_to_drop ->
     In (fst c, encode (snd c))
        (to_record encode (drop columns_to_drop (columns r)))) /\
  (forall name text,
     In (name, text) (to_record encode (drop columns_to_drop (columns r))) ->
     exists v, In (name, v) (columns r) /\ text = encode v).
Proof.
  generalize (columns r). intros row. split; [| split].
  - intros name Hname. unfold to_record. rewrite map_map. cbn [fst].
    apply drop_excludes. exact Hname.
  - intros c Hc Hnot. unfold to_record.
    apply (in_map (fun c => (fst c, encode (snd c)))).
    exact (drop_keeps _ _ c Hc Hnot).
  - intros name text Hfield. unfold to_record in Hfield.
    apply in_map_iff in Hfield. destruct Hfield as [[name' v] [Heq Hc]].
    cbn [fst snd] in Heq. injection Heq as -> <-.
    exists v. split; [| reflexivity].
    unfold drop in Hc. apply filter_In in Hc. apply Hc.
Qed.

(** X15. The input sample written to sample.json, whatever text the JSON
    encoder writes for a value.  A test split with fewer rows than asked
    for raises; otherwise the sample is a JSON array of exactly [n]
    objects, taken from [n] different rows of the test split; each object
    holds none of the columns cycle, immediate_failure, rul, sequenceID and
    machineID, holds every other column of its row by name with the
    encoded value, and holds nothing else. *)
Theorem input_sample_fields (encode : cell -> string) (rng : RandomState)
    (n : nat) (test : DataFrame) :
  RandomState_wf rng ->
  ((length test < n)%nat ->
   input_sample encode rng n (fst (xy_split test)) = None) /\
  ((n <= length test)%nat ->
   exists positions rows,
     input_sample encode rng n (fst (xy_split test)) = Some rows /\
     NoDup positions /\ length positions = n /\ length rows = n /\
     Forall2 (fun i fields =>
                exists r, nth_error test i = Some r /\
                  (forall name,
                     In name ["cycle"; "immediate_failure"; "rul";
                              "sequenceID"; "machineID"]%string ->
                     ~ In name (map fst fields)) /\
                  (forall c, In c (columns r) ->
                     ~ In (fst c) ["cycle"; "immediate_failure"; "rul";
                                   "sequenceID"; "machineID"]%string ->
                     In (fst c, encode (snd c)) fields) /\
                  (forall name text, In (name, text) fields ->
                     exists v, In (name, v) (columns r) /\ text = encode v))
             positions rows).
Proof.
  intros Hwf. unfold input_sample, sample, xy_split. cbn [fst].
  rewrite length_map. split.
  - intros Hlt. apply Nat.ltb_lt in Hlt. rewrite Hlt. reflexivity.
  - intros Hle.
    destruct (Nat.ltb_spec (length test) n) as [Hlt | _]; [lia |].
    destruct (drawn_positions rng n (length test) Hwf Hle) as [Hnd [Hlen Hin]].
    set (positions := firstn n (permutation rng (length test))) in *.
    set (X_test := map (fun r => drop columns_to_drop (columns r)) test).
    assert (Hvalid : Forall2 (fun i x => nth_error X_test i = Some x)
                       positions (safe_indexing X_test positions)).
    { apply safe_indexing_valid. unfold X_test. rewrite length_map. exact Hin. }
    exists positions,
           (map (to_record encode) (safe_indexing X_test positions)).
    split; [reflexivity |].
    split; [exact Hnd |]. split; [exact Hlen |].
    split; [rewrite length_map, <- (Forall2_length Hvalid); exact Hlen |].
    clear Hnd Hlen Hin.
    induction Hvalid as [| i x rest xs Hx _ IH]; cbn [map].
    + constructor.
    + constructor; [| exact IH].
      unfold X_test in Hx. rewrite nth_error_map in Hx.
      destruct (nth_error test i) as [r |]; [| discriminate].
      injection Hx as <-. exists r. split; [reflexivity |].
      exact (to_record_fields encode r).
Qed.

Lemma input_sample_fields_witness :
  input_sample Sample.encoder (Sample.rng 0) 5 (fst (xy_split Sample.late))
  = None /\
  exists positions rows,
    input_sample Sample.encoder (Sample.rng 0) 5 (fst (xy_split Sample.early))
    = Some rows /\
    NoDup positions /\ length positions = 5%nat /\ length rows = 5%nat /\
    Forall2 (fun i fields =>
               exists r, nth_error Sample.early i = Some r /\
                 (forall name,
                    In name ["cycle"; "immediate_failure"; "rul";
                             "sequenceID"; "machineID"]%string ->
                    ~ In name (map fst fields)) /\
                 (forall c, In c (columns r) ->
                    ~ In (fst c) ["cycle"; "immediate_failure"; "rul";
                                  "sequenceID"; "machineID"]%string ->
                    In (fst c, Sample.encoder (snd c)) fields) /\
                 (forall name text, In (name, text) fields ->
                    exists v, In (name, v) (columns r) /\
                              text = Sample.encoder v))
            positions rows.
Proof.
  destruct (input_sample_fields Sample.encoder (Sample.rng 0) 5 Sample.late
              (Sample_rng_wf 0)) as [Hnone _].
  destruct (input_sample_fields Sample.encoder (Sample.rng 0) 5 Sample.early
              (Sample_rng_wf 0)) as [_ Hsome].
  split; [apply Hnone; simpl; lia | apply Hsome; simpl; lia].
Defined.
(** ** The counts of a Counter *)

(** X16. [Counter(Y_train)] holds one entry per label that occurs in
    [Y_train], and holds for it the number of its occurrences; looking up a
    label that does not occur answers 0. *)
Theorem Counter_counts (Y : list label) :
  NoDup (map fst (Counter Y)) /\
  (forall l, count_of l (Counter Y) = occurrences Y l) /\
  (forall l, In l (map fst (Counter Y)) <-> In l Y) /\
  (forall l, ~ In l Y -> count_of l (Counter Y) = 0).
Proof.
  split; [apply Counter_NoDup |].
  split; [apply count_of_Counter |].
  assert (Hocc : forall l, In l Y <-> 0 < occurrences Y l).
  { intros l. unfold occurrences.
    rewrite (count_occ_In string_dec Y l). lia. }
  split.
  - intros l. rewrite Hocc. split.
    + intros Hin. apply in_map_iff in Hin. destruct Hin as [[l' n] [Hl Hin]].
      simpl in Hl. subst l'. apply Counter_In in Hin.
      destruct Hin as [-> Hpos]. exact Hpos.
    + intros Hpos. apply in_map_iff. exists (l, occurrences Y l).
      split; [reflexivity |]. apply Counter_In. split; [reflexivity | exact Hpos].
  - intros l Hnot. rewrite count_of_Counter.
    destruct (Z.eq_dec (occurrences Y l) 0) as [Hz | Hnz]; [exact Hz |].
    exfalso. apply Hnot. apply Hocc. unfold occurrences in *. lia.
Qed.

